(** * SoraStitcher: a shallow embedding of [SoraStitcher.py]

    The program enumerates the [.mp4] files of a folder, fixes a starting
    clip, shuffles the others with Python's global generator, resolves a
    target size, and then either joins the clips directly (fast mode) or
    re-encodes each of them into a scoped temporary directory and joins the
    results.  All media work is done by external tools ([ffmpeg],
    [ffprobe]); the embedding keeps the argument vectors the program builds
    and treats the tools, the path resolution of the operating system and
    Python's generator as an environment.

    File names are byte strings (UTF-8): byte-wise comparison of UTF-8
    agrees with Python's code-point comparison of [str]. *)

From Stdlib Require Import ZArith Ascii.
From stdpp Require Import base decidable option list sorting gmap strings pretty.

Open Scope Z_scope.
Open Scope nat_scope.

(** ** Strings *)

Module Str.

(** [str.lower] on the ASCII range; other bytes are left alone. *)
Definition lower_char (a : ascii) : ascii :=
  let n := N_of_ascii a in
  if ((65 <=? n) && (n <=? 90))%N then ascii_of_N (n + 32) else a.

Fixpoint lower (s : string) : string :=
  match s with
  | EmptyString => EmptyString
  | String a s' => String (lower_char a) (lower s')
  end.

(** [s.rfind(c)]: the highest index holding [c]; [None] is Python's -1. *)
Fixpoint rfind (c : ascii) (s : string) : option nat :=
  match s with
  | EmptyString => None
  | String a s' =>
      match rfind c s' with
      | Some i => Some (S i)
      | None => if decide (a = c) then Some 0 else None
      end
  end.

(** [s[i:]] and [s[:i]] *)
Fixpoint drop (i : nat) (s : string) : string :=
  match i, s with
  | 0, _ => s
  | S i', EmptyString => EmptyString
  | S i', String _ s' => drop i' s'
  end.

Fixpoint take (i : nat) (s : string) : string :=
  match i, s with
  | 0, _ => EmptyString
  | S i', EmptyString => EmptyString
  | S i', String a s' => String a (take i' s')
  end.

(** [c in s] for a one-character needle. *)
Fixpoint contains (c : ascii) (s : string) : bool :=
  match s with
  | EmptyString => false
  | String a s' => if decide (a = c) then true else contains c s'
  end.

(** [s.split(c)] for a one-character separator. *)
Fixpoint split (c : ascii) (s : string) : list string :=
  match s with
  | EmptyString => [EmptyString]
  | String a s' =>
      if decide (a = c) then EmptyString :: split c s'
      else match split c s' with
           | w :: ws => String a w :: ws
           | [] => [String a EmptyString]
           end
  end.

(** [s.replace(c, new)] for a one-character pattern. *)
Fixpoint replace (c : ascii) (new : string) (s : string) : string :=
  match s with
  | EmptyString => EmptyString
  | String a s' =>
      if decide (a = c) then new +:+ replace c new s'
      else String a (replace c new s')
  end.

(** [sep.join(l)] *)
Fixpoint join (sep : string) (l : list string) : string :=
  match l with
  | [] => EmptyString
  | [x] => x
  | x :: l' => x +:+ sep +:+ join sep l'
  end.

Fixpoint concat (l : list string) : string :=
  match l with
  | [] => EmptyString
  | x :: l' => x +:+ concat l'
  end.

End Str.

(** ** Paths

    A path is the list of its components below the root, as [pathlib]
    keeps them after [resolve()]. *)

Definition Path : Type := list string.

Definition name (p : Path) : string := List.last p EmptyString.

(** [PurePath.suffix]: the part of the name from its last dot, when that dot
    is neither the first nor the last character. *)
Definition suffix (p : Path) : string :=
  let n := name p in
  match Str.rfind "." n with
  | Some i =>
      if decide (0 < i ∧ i < String.length n - 1) then Str.drop i n
      else EmptyString
  | None => EmptyString
  end.

(** [as_posix()] and [str()] of an absolute POSIX path. *)
Definition as_posix (p : Path) : string :=
  match p with
  | [] => "/"
  | _ => Str.concat ((λ c, "/" +:+ c) <$> p)
  end.

(** [folder / name] for a single component. *)
Definition child (folder : Path) (n : string) : Path := folder ++ [n].

(** Paths compare as their component lists do: at the first component that
    differs, by the strings; a proper prefix comes first. *)
Fixpoint path_leb (p q : Path) : bool :=
  match p, q with
  | [], _ => true
  | _ :: _, [] => false
  | x :: p', y :: q' =>
      if decide (x = y) then path_leb p' q' else bool_decide (String.le x y)
  end.

Definition path_le (p q : Path) : Prop := path_leb p q.

#[global] Instance path_le_dec : RelDecision path_le.
Proof. intros p q. unfold path_le. apply _. Defined.

(** ** Clip enumeration (line 183 of [main]) *)

Definition is_mp4 (p : Path) : bool :=
  bool_decide (Str.lower (suffix p) = ".mp4").

(** [sorted(...)], a stable merge sort on the path order. *)
Definition sorted (l : list Path) : list Path := merge_sort path_le l.

Definition enumerate_clips (is_file : Path → bool) (entries : list Path)
  : list Path :=
  sorted (filter (λ p, is_mp4 p && is_file p) entries).

(** ** The environment

    Python's global generator: [random.seed(n)] replaces the state,
    [_randbelow(n)] draws below [n].  [random.shuffle] is built on these. *)

Class PRNG : Type := {
  rng_state : Type;
  rng_seed : Z → rng_state;
  rng_below : nat → rng_state → nat * rng_state;
  rng_below_lt : ∀ n g, 0 < n → (rng_below n g).1 < n
}.

(** What the operating system and the external tools answer during one run. *)
Class Env : Type := {
  (** [Path(s).expanduser().resolve()] *)
  resolve_arg : string → Path;
  (** [(folder / s).resolve()] *)
  resolve_under : Path → string → Path;
  (** [ffprobe]: its standard output when it ran and exited with 0 *)
  ffprobe_run : list string → option string;
  (** [ffmpeg]: its exit status, [None] when it could not be started *)
  ffmpeg_run : list string → option Z;
  (** whether [ffmpeg] leaves a file at its output argument *)
  ffmpeg_writes : list string → bool;
  (** the two [-version] checks *)
  tool_found : string → bool;
  (** names chosen by [tempfile] *)
  mkstemp_path : Path;
  mkdtemp_path : Path;
  (** writing the manifest: the exception raised, if any, once the file has
      been created *)
  write_error : Path → string → option string;
  (** whether [unlink] of the path succeeds *)
  unlink_ok : Path → bool;
  (** Python's [int(str)], [None] for [ValueError] *)
  py_int : string → option Z
}.

Inductive Event : Type :=
| Spawn (argv : list string)
| WriteFile (p : Path) (content : string)
| WriteFailed (p : Path)
| Unlink (p : Path)
| Mkdtemp (p : Path)
| Rmtree (p : Path).

#[global] Instance Event_eq_dec : EqDecision Event.
Proof. solve_decision. Defined.

(** How a piece of Python ends: normally, by [SystemExit], or by an
    exception nobody catches. *)
Inductive outcome (A : Type) : Type :=
| Done (a : A)
| SystemExit (code : Z)
| Uncaught (exn : string).
Arguments Done {A} a.
Arguments SystemExit {A} code.
Arguments Uncaught {A} exn.

(** Command-line arguments after [argparse]. *)
Record Args : Type := mkArgs {
  a_folder : string;
  a_start : string;
  a_output : string;
  a_fps : Z;
  a_width : option Z;
  a_height : option Z;
  a_crf : Z;
  a_preset : string;
  a_audio_bitrate : string;
  a_seed : option Z;
  a_fast : bool
}.

(** What [main] has settled when it reaches line 212. *)
Record Plan : Type := mkPlan {
  pl_clips : list Path;
  pl_start : Path;
  pl_ordered : list Path;
  pl_size : Z * Z;
  pl_output : Path
}.

(** [x[i], x[j] = x[j], x[i]]; [None] is Python's [IndexError]. *)
Definition swap {A} (i j : nat) (x : list A) : option (list A) :=
  a ← x !! j; b ← x !! i; Some (<[j:=b]> (<[i:=a]> x)).

(** Python truthiness of an optional integer, and [v or d]. *)
Definition truthy (v : option Z) : bool :=
  match v with
  | Some n => negb (n =? 0)%Z
  | None => false
  end.

Definition or_else (v : option Z) (d : Z) : Z :=
  match v with
  | Some n => if (n =? 0)%Z then d else n
  | None => d
  end.

(** [str.isspace] on the ASCII range, and [str.strip()]. *)
Definition is_space (a : ascii) : bool :=
  let n := N_of_ascii a in
  (((9 <=? n) && (n <=? 13)) || ((28 <=? n) && (n <=? 32)))%N.

Fixpoint lstrip (s : string) : string :=
  match s with
  | EmptyString => EmptyString
  | String a s' => if is_space a then lstrip s' else s
  end.

Definition strip (s : string) : string :=
  String.rev (lstrip (String.rev (lstrip s))).

(** [f"{idx:04d}"] *)
Definition fmt_04d (idx : nat) : string :=
  let s := pretty idx in
  Str.concat (replicate (4 - String.length s) "0") +:+ s.

(** ** The program *)

Section Program.
Context {G : PRNG} {E : Env}.

(** The part of the machine a run reads and changes. *)
Record World : Type := mkWorld {
  w_files : gset Path;
  w_dirs : gset Path;
  w_rng : rng_state;
  w_trace : list Event
}.

Definition M (A : Type) : Type := World → outcome A * World.

#[export] Instance M_ret : MRet M := λ A a w, (Done a, w).
#[export] Instance M_bind : MBind M := λ A B f m w,
  match m w with
  | (Done a, w') => f a w'
  | (SystemExit c, w') => (SystemExit c, w')
  | (Uncaught e, w') => (Uncaught e, w')
  end.

Definition sys_exit {A} (code : Z) : M A := λ w, (SystemExit code, w).
Definition raise {A} (exn : string) : M A := λ w, (Uncaught exn, w).

(** [try: m finally: h], for a handler that raises nothing itself (what
    fails inside it is swallowed). *)
Definition finally {A} (m : M A) (h : World → World) : M A := λ w,
  let '(r, w') := m w in (r, h w').

(** [try: m except SystemExit as e: k e.code] *)
Definition catch_exit {A} (m : M A) (k : Z → M A) : M A := λ w,
  match m w with
  | (SystemExit c, w') => k c w'
  | r => r
  end.

Definition log (e : Event) (w : World) : World :=
  mkWorld (w_files w) (w_dirs w) (w_rng w) (w_trace w ++ [e]).

Definition set_files (fs : gset Path) (w : World) : World :=
  mkWorld fs (w_dirs w) (w_rng w) (w_trace w).

Definition set_dirs (ds : gset Path) (w : World) : World :=
  mkWorld (w_files w) ds (w_rng w) (w_trace w).

Definition set_rng (g : rng_state) (w : World) : World :=
  mkWorld (w_files w) (w_dirs w) g (w_trace w).

(** *** The file system as [pathlib] sees it *)

Definition is_file (w : World) (p : Path) : bool := bool_decide (p ∈ w_files w).
Definition is_dir (w : World) (p : Path) : bool := bool_decide (p ∈ w_dirs w).
Definition exists_ (w : World) (p : Path) : bool := is_file w p || is_dir w p.

(** [p] is an entry of the directory [folder] itself. *)
Definition is_child_of (folder p : Path) : bool :=
  bool_decide (length p = S (length folder)
               ∧ take (length folder) p = folder).

(** [folder.iterdir()], in the order the set happens to list. *)
Definition iterdir (w : World) (folder : Path) : list Path :=
  filter (is_child_of folder) (elements (w_files w ∪ w_dirs w)).

(** Lines 154-157: [list_path.unlink()] with its exception swallowed; when
    the call fails the file stays and nothing is reported. *)
Definition unlink (p : Path) (w : World) : World :=
  log (Unlink p)
    (if unlink_ok p then set_files (w_files w ∖ {[p]}) w else w).

(** Leaving [with tempfile.TemporaryDirectory(...)]. *)
Definition rmtree (td : Path) (w : World) : World :=
  log (Rmtree td)
    (set_dirs (filter (λ p, ¬ td `prefix_of` p) (w_dirs w))
       (set_files (filter (λ p, ¬ td `prefix_of` p) (w_files w)) w)).

Definition mkdtemp : M Path := λ w,
  (Done mkdtemp_path, log (Mkdtemp mkdtemp_path)
                        (set_dirs ({[mkdtemp_path]} ∪ w_dirs w) w)).

(** Lines 134-137: the file is created under a fresh name and written; when
    the write raises, the file stays (it was opened with [delete=False]) and
    the exception goes on. *)
Definition write_file (p : Path) (content : string) : M unit := λ w,
  let w1 := set_files ({[p]} ∪ w_files w) w in
  match write_error p content with
  | None => (Done (), log (WriteFile p content) w1)
  | Some exn => (Uncaught exn, log (WriteFailed p) w1)
  end.

(** *** Lines 37-44: [run] *)

Definition run (cmd : list string) (out : Path) : M unit := λ w,
  let w1 := log (Spawn cmd) w in
  let w2 := if ffmpeg_writes cmd
            then set_files ({[out]} ∪ w_files w1) w1 else w1 in
  match ffmpeg_run cmd with
  | Some 0%Z => (Done (), w2)
  | Some code => (SystemExit code, w2)
  | None => (Uncaught "OSError", w2)
  end.

(** *** Lines 47-53: [check_ffmpeg] *)

Definition check_tool (tool : string) : M unit := λ w,
  let w1 := log (Spawn [tool; "-version"]) w in
  if tool_found tool then (Done (), w1) else (SystemExit 1%Z, w1).

Definition check_ffmpeg : M unit :=
  check_tool "ffmpeg";; check_tool "ffprobe".

(** *** Lines 56-82: [probe_size] *)

Definition ffprobe_cmd (path : Path) : list string :=
  ["ffprobe"; "-v"; "error"; "-select_streams"; "v:0"; "-show_entries";
   "stream=width,height"; "-of"; "csv=p=0:s=x"; as_posix path].

Definition parse_size (stdout : string) : option (Z * Z) :=
  let s := strip stdout in
  if Str.contains "x" s then
    match Str.split "x" s with
    | [w_str; h_str] =>
        w ← py_int w_str; h ← py_int h_str; Some (w, h)
    | _ => None
    end
  else None.

Definition probe_size (path : Path) : M (Z * Z) := λ w,
  let w1 := log (Spawn (ffprobe_cmd path)) w in
  match ffprobe_run (ffprobe_cmd path) ≫= parse_size with
  | Some wh => (Done wh, w1)
  | None => (Done (1920, 1080)%Z, w1)
  end.

(** *** Lines 87-130: [normalize_clip] *)

Definition vf_filter (size : Z * Z) (fps : Z) : string :=
  "scale=w=" +:+ pretty size.1 +:+ ":h=" +:+ pretty size.2
    +:+ ":force_original_aspect_ratio=decrease,"
    +:+ "pad=" +:+ pretty size.1 +:+ ":" +:+ pretty size.2
    +:+ ":(ow-iw)/2:(oh-ih)/2:color=black,fps=" +:+ pretty fps.

Definition normalize_cmd (a : Args) (size : Z * Z) (src dst : Path)
  : list string :=
  ["ffmpeg"; "-y"; "-i"; as_posix src; "-vf"; vf_filter size (a_fps a);
   "-c:v"; "libx264"; "-preset"; a_preset a; "-crf"; pretty (a_crf a);
   "-pix_fmt"; "yuv420p"; "-r"; pretty (a_fps a); "-c:a"; "aac";
   "-b:a"; a_audio_bitrate a; "-ar"; "48000"; "-ac"; "2"; as_posix dst].

Definition normalize_clip (a : Args) (size : Z * Z) (src dst : Path)
  : M unit :=
  run (normalize_cmd a size src dst) dst.

(** *** Lines 133-157: [concat_via_list] *)

Definition newline : string := String "010" EmptyString.

(** The text between the quotes of one manifest line. *)
Definition escape_path (p : Path) : string :=
  Str.replace "'" "'\''" (as_posix p).

Definition manifest_line (p : Path) : string :=
  "file '" +:+ escape_path p +:+ "'" +:+ newline.

Definition manifest (file_list : list Path) : string :=
  Str.concat (manifest_line <$> file_list).

Definition concat_cmd (list_path output : Path) : list string :=
  ["ffmpeg"; "-y"; "-f"; "concat"; "-safe"; "0"; "-i"; as_posix list_path;
   "-c"; "copy"; as_posix output].

Definition concat_via_list (file_list : list Path) (output : Path)
  : M unit :=
  let list_path := mkstemp_path in
  write_file list_path (manifest file_list);;
  finally (run (concat_cmd list_path output) output) (unlink list_path).

(** *** Lines 176-212 of [main] *)

(** [random.shuffle(x)]: for [i] from [len(x) - 1] down to 1, swap [x[i]]
    with [x[j]] for a [j] drawn below [i + 1]. *)
Fixpoint shuffle_from (i : nat) (x : list Path) (g : rng_state)
  : option (list Path * rng_state) :=
  match i with
  | 0 => Some (x, g)
  | S i' =>
      let '(j, g') := rng_below (S i) g in
      x' ← swap i j x; shuffle_from i' x' g'
  end.

Definition shuffle (x : list Path) (g : rng_state)
  : option (list Path * rng_state) :=
  shuffle_from (length x - 1) x g.

(** Lines 188-195. *)
Definition resolve_start (w : World) (folder : Path) (clips : list Path)
    (start : string) : option Path :=
  let start_path := resolve_under folder start in
  if negb (exists_ w start_path) then
    head (filter (λ p, name p = start) clips)
  else Some start_path.

(** Lines 197-201. *)
Definition plan_order (seed : option Z) (clips : list Path)
    (start_path : Path) : M (list Path) := λ w,
  let others := filter (λ p, p ≠ start_path) clips in
  let g := match seed with
           | Some s => rng_seed s
           | None => w_rng w
           end in
  match shuffle others g with
  | Some (others', g') => (Done (start_path :: others'), set_rng g' w)
  | None => (Uncaught "IndexError", set_rng g w)
  end.

(** Lines 197-201 when a seed is given: the play order as a function of the
    seed, the clips and the start; [None] is [IndexError]. *)
Definition seeded_order (s : Z) (clips : list Path) (start_path : Path)
  : option (list Path) :=
  r ← shuffle (filter (λ p, p ≠ start_path) clips) (rng_seed s);
  Some (start_path :: r.1).

(** Lines 205-209. *)
Definition resolve_size (a : Args) (start_path : Path) : M (Z * Z) :=
  if truthy (a_width a) && truthy (a_height a) then
    mret (default 0%Z (a_width a), default 0%Z (a_height a))
  else
    wh ← probe_size start_path;
    mret (or_else (a_width a) wh.1, or_else (a_height a) wh.2).

(** Lines 183-212, once the folder and the tools have been checked. *)
Definition plan_run (a : Args) (folder : Path) : M (Z + Plan) := λ w,
  let clips := enumerate_clips (is_file w) (iterdir w folder) in
  match clips with
  | [] => (Done (inl 3%Z), w)
  | _ :: _ =>
      match resolve_start w folder clips (a_start a) with
      | None => (Done (inl 4%Z), w)
      | Some start_path =>
          (ordered ← plan_order (a_seed a) clips start_path;
           size ← resolve_size a start_path;
           mret (inr (mkPlan clips start_path ordered size
                        (resolve_arg (a_output a))))) w
      end
  end.

(** Everything before the two branches; [inl c] is [return c]. *)
Definition prepare (a : Args) : M (Z + Plan) := λ w,
  let folder := resolve_arg (a_folder a) in
  if negb (is_dir w folder) then (Done (inl 2%Z), w)
  else (check_ffmpeg;; plan_run a folder) w.

(** *** Lines 214-245 of [main] *)

Definition fast_path (pl : Plan) : M Z :=
  catch_exit
    (concat_via_list (pl_ordered pl) (pl_output pl);; mret 0%Z)
    (λ code, mret code).

Definition part_path (norm_dir : Path) (idx : nat) : Path :=
  child norm_dir ("part_" +:+ fmt_04d idx +:+ ".mp4").

Fixpoint normalize_all (a : Args) (size : Z * Z) (norm_dir : Path)
    (idx : nat) (srcs : list Path) : M (list Path) :=
  match srcs with
  | [] => mret []
  | src :: rest =>
      let dst := part_path norm_dir idx in
      normalize_clip a size src dst;;
      norm_paths ← normalize_all a size norm_dir (S idx) rest;
      mret (dst :: norm_paths)
  end.

Definition normal_path (a : Args) (pl : Plan) : M Z :=
  td ← mkdtemp;
  finally
    (norm_paths ← normalize_all a (pl_size pl) td 0 (pl_ordered pl);
     concat_via_list norm_paths (pl_output pl))
    (rmtree td);;
  mret 0%Z.

Definition main (a : Args) : M Z :=
  r ← prepare a;
  match r with
  | inl code => mret code
  | inr pl => if a_fast a then fast_path pl else normal_path a pl
  end.

(** The status the process ends with (line 249): the code is handed to the
    operating system, which keeps its low eight bits; an uncaught exception
    ends the process with 1. *)
Definition exit_status (r : outcome Z) : Z :=
  match r with
  | Done code => (code mod 256)%Z
  | SystemExit code => (code mod 256)%Z
  | Uncaught _ => 1%Z
  end.

(** *** Vocabulary for the statements *)

(** Two machine states with the same files and directories. *)
Definition same_fs (w1 w2 : World) : Prop :=
  w_files w1 = w_files w2 ∧ w_dirs w1 = w_dirs w2.

(** A computation whose result rests only on the files and directories. *)
Definition fs_determined {A} (m : M A) : Prop :=
  ∀ w1 w2, same_fs w1 w2 →
    (m w1).1 = (m w2).1 ∧ same_fs (m w1).2 (m w2).2.

(** The transcoder runs for the clips [srcs], numbered from [idx]. *)
Definition transcodes (a : Args) (size : Z * Z) (norm_dir : Path)
    (idx : nat) (srcs : list Path) : list Event :=
  imap (λ i src,
          Spawn (normalize_cmd a size src (part_path norm_dir (idx + i))))
       srcs.

(** How [run] ends, by what the tool answers. *)
Definition run_outcome (cmd : list string) : outcome unit :=
  match ffmpeg_run cmd with
  | Some 0%Z => Done ()
  | Some code => SystemExit code
  | None => Uncaught "OSError"
  end.

(** What the machine is after one run of the transcoder. *)
Definition after_run (cmd : list string) (out : Path) (w : World) : World :=
  let w1 := log (Spawn cmd) w in
  if ffmpeg_writes cmd then set_files ({[out]} ∪ w_files w1) w1 else w1.

(** The intermediate files for [n] clips, numbered from [idx]. *)
Definition part_paths (norm_dir : Path) (idx n : nat) : list Path :=
  part_path norm_dir <$> seq idx n.

(** Nothing exists yet at or below [p]. *)
Definition fresh (p : Path) (w : World) : Prop :=
  ∀ q, q ∈ w_files w ∪ w_dirs w → ¬ p `prefix_of` q.

End Program.

(** ** The joiner's reading of a manifest

    The external joiner takes the manifest line by line (a line ends at a
    line feed or a carriage return).  The argument of a [file] directive is
    one token: outside quotes a backslash makes the next character literal,
    a single quote opens a quoted run and a blank ends the token; inside
    quotes every character is literal up to the closing quote. *)

Module Joiner.

Definition is_blank (c : ascii) : bool :=
  bool_decide (c = " "%char ∨ c = "009"%char ∨ c = "010"%char ∨ c = "013"%char).

Definition is_eol (c : ascii) : bool :=
  bool_decide (c = "010"%char ∨ c = "013"%char).

(** The token at the head of [s] and what follows it. *)
Fixpoint read_token (quoted : bool) (s : string) : string * string :=
  match s with
  | EmptyString => (EmptyString, EmptyString)
  | String c s' =>
      if quoted then
        if decide (c = "'"%char) then read_token false s'
        else let '(t, r) := read_token true s' in (String c t, r)
      else if decide (c = "'"%char) then read_token true s'
      else if decide (c = "\"%char) then
        match s' with
        | EmptyString => (String c EmptyString, EmptyString)
        | String d s'' =>
            let '(t, r) := read_token false s'' in (String d t, r)
        end
      else if is_blank c then (EmptyString, s)
      else let '(t, r) := read_token false s' in (String c t, r)
  end.

Fixpoint split_lines (s : string) : list string :=
  match s with
  | EmptyString => [EmptyString]
  | String c s' =>
      if is_eol c then EmptyString :: split_lines s'
      else match split_lines s' with
           | l :: ls => String c l :: ls
           | [] => [String c EmptyString]
           end
  end.

(** The path a line names, when the line is a [file] directive. *)
Definition read_line (line : string) : option string :=
  if bool_decide (Str.take 5 line = "file ")
  then Some (read_token false (lstrip (Str.drop 5 line))).1
  else None.

(** The files a manifest lists, in order. *)
Definition files (text : string) : list string :=
  omap read_line (split_lines text).

End Joiner.

(** ** A concrete environment for examples

    A file system without symbolic links, where [resolve()] only removes
    [.] and [..]; tools scripted by argument vector; a linear congruential
    generator; a decimal reading of [int]. *)

Module Demo.

Definition parts_of (s : string) : list string :=
  filter (λ c, c ≠ EmptyString ∧ c ≠ ".") (Str.split "/" s).

Fixpoint normalize (rev_acc : list string) (parts : list string) : Path :=
  match parts with
  | [] => reverse rev_acc
  | c :: rest =>
      if decide (c = "..") then normalize (tail rev_acc) rest
      else normalize (c :: rev_acc) rest
  end.

Definition lexical_resolve (base : Path) (s : string) : Path :=
  match s with
  | String "/" _ => normalize [] (parts_of s)
  | _ => normalize (reverse base) (parts_of s)
  end.

Fixpoint decimal_from (acc : Z) (s : string) : option Z :=
  match s with
  | EmptyString => Some acc
  | String c s' =>
      d ← Ascii.is_nat c; decimal_from (10 * acc + Z.of_nat d)%Z s'
  end.

Definition decimal (s : string) : option Z :=
  match s with
  | EmptyString => None
  | _ => decimal_from 0 s
  end.

Definition lcg_next (g : Z) : Z := ((1103515245 * g + 12345) mod 2147483648)%Z.

#[local] Instance lcg : PRNG.
Proof.
  refine {| rng_state := Z;
            rng_seed := λ s, (Z.abs s mod 2147483648)%Z;
            rng_below := λ n g, (Z.to_nat (lcg_next g / 65536 mod Z.of_nat n),
                                  lcg_next g) |}.
  intros n g Hn. simpl.
  pose proof (Z.mod_pos_bound (lcg_next g / 65536) (Z.of_nat n)). lia.
Defined.

Definition env (probe : option string) (status : list string → option Z)
  : Env :=
  {| resolve_arg := lexical_resolve [];
     resolve_under := lexical_resolve;
     ffprobe_run := λ _, probe;
     ffmpeg_run := status;
     ffmpeg_writes := λ cmd, bool_decide (status cmd = Some 0%Z);
     tool_found := λ _, true;
     mkstemp_path := ["tmp"; "tmpk3x9.txt"];
     mkdtemp_path := ["tmp"; "sorastitcher_q1"];
     write_error := λ _ _, None;
     unlink_ok := λ _, true;
     py_int := decimal |}.

(** The same machine, where the manifest write raises [write_exn] (if any)
    and [unlink] succeeds only if [can_unlink]. *)
Definition faulty (write_exn : option string) (can_unlink : bool)
    (status : list string → option Z) : Env :=
  {| resolve_arg := lexical_resolve [];
     resolve_under := lexical_resolve;
     ffprobe_run := λ _, Some "640x480";
     ffmpeg_run := status;
     ffmpeg_writes := λ cmd, bool_decide (status cmd = Some 0%Z);
     tool_found := λ _, true;
     mkstemp_path := ["tmp"; "tmpk3x9.txt"];
     mkdtemp_path := ["tmp"; "sorastitcher_q1"];
     write_error := λ _ _, write_exn;
     unlink_ok := λ _, can_unlink;
     py_int := decimal |}.

Definition all_ok : list string → option Z := λ _, Some 0%Z.

(** A transcoder that exits with 1 on the clip [src] and with 0 on all
    others (the source is the fourth word of the command line). *)
Definition fails_on (src : string) : list string → option Z := λ cmd,
  if decide (cmd !! 3 = Some src) then Some 1%Z else Some 0%Z.

(** [/clips] holds three clips, a text file and a sub-folder with a clip of
    its own; [/other/intro.mp4] lies outside. *)
Definition world : @World lcg :=
  {| w_files := {[ ["clips"; "b.mp4"]; ["clips"; "a.mp4"]; ["clips"; "c.MP4"];
                   ["clips"; "notes.txt"]; ["clips"; "sub"; "d.mp4"];
                   ["other"; "intro.mp4"] ]};
     w_dirs := {[ []; ["clips"]; ["clips"; "sub"]; ["other"]; ["tmp"] ]};
     w_rng := 7%Z;
     w_trace := [] |}.

Definition args (start : string) (fast : bool) : Args :=
  {| a_folder := "/clips"; a_start := start; a_output := "/out/Sora_Reel.mp4";
     a_fps := 30; a_width := None; a_height := None; a_crf := 20;
     a_preset := "medium"; a_audio_bitrate := "192k";
     a_seed := Some 42%Z; a_fast := fast |}.

End Demo.

(** The spellings of the media extension that differ only by case. *)
Definition mp4_spellings : list string :=
  [".mp4"; ".mP4"; ".Mp4"; ".MP4"].

(** A name has extension [ext] when it ends in it after a non-empty stem. *)
Definition has_extension (n ext : string) : Prop :=
  ∃ stem, stem ≠ EmptyString ∧ n = stem +:+ ext.

(** A text without line feed or carriage return. *)
Fixpoint one_line (s : string) : bool :=
  match s with
  | EmptyString => true
  | String c s' => negb (Joiner.is_eol c) && one_line s'
  end.

(** * Properties *)

(** ** The order on paths *)

Lemma path_leb_refl p : path_leb p p = true.
Proof. induction p as [|x p IH]; simpl; [done|]. by rewrite decide_True. Qed.

Lemma path_leb_total p q : path_leb p q = true ∨ path_leb q p = true.
Proof.
  revert q. induction p as [|x p IH]; intros [|y q]; simpl; auto.
  destruct (decide (x = y)) as [->|Hxy].
  - rewrite decide_True by done. apply IH.
  - rewrite decide_False by congruence.
    destruct (total String.le x y); [left|right]; by apply bool_decide_eq_true.
Qed.

Lemma path_leb_antisym p q :
  path_leb p q = true → path_leb q p = true → p = q.
Proof.
  revert q. induction p as [|x p IH]; intros [|y q]; simpl; try done.
  destruct (decide (x = y)) as [->|Hxy].
  - rewrite decide_True by done. intros. f_equal. by apply IH.
  - rewrite decide_False by congruence.
    intros H1%bool_decide_eq_true H2%bool_decide_eq_true.
    destruct Hxy. by apply (anti_symm String.le).
Qed.

Lemma path_leb_trans p q r :
  path_leb p q = true → path_leb q r = true → path_leb p r = true.
Proof.
  revert q r. induction p as [|x p IH]; intros [|y q] [|z r]; simpl; try done.
  destruct (decide (x = y)) as [->|Hxy].
  - destruct (decide (y = z)) as [->|Hyz]; [apply IH|done].
  - intros Hxy'%bool_decide_eq_true.
    destruct (decide (y = z)) as [->|Hyz].
    + intros _. rewrite decide_False by done. by apply bool_decide_eq_true.
    + intros Hyz'%bool_decide_eq_true.
      destruct (decide (x = z)) as [->|Hxz].
      * destruct Hxy. by apply (anti_symm String.le).
      * apply bool_decide_eq_true. by etrans.
Qed.

#[global] Instance path_le_po : PartialOrder path_le.
Proof.
  unfold path_le. split; [split|].
  - intros p. apply Is_true_true, path_leb_refl.
  - intros p q r ?%Is_true_true ?%Is_true_true.
    apply Is_true_true. by eapply path_leb_trans.
  - intros p q ?%Is_true_true ?%Is_true_true. by apply path_leb_antisym.
Qed.

#[global] Instance path_le_total : Total path_le.
Proof.
  intros p q. unfold path_le.
  destruct (path_leb_total p q); [left|right]; by apply Is_true_true.
Qed.

(** [sorted] returns the one sorted arrangement of its input. *)
Lemma sorted_Sorted l : Sorted path_le (sorted l).
Proof. apply (Sorted_merge_sort path_le). Qed.

Lemma sorted_Permutation l : sorted l ≡ₚ l.
Proof. apply merge_sort_Permutation. Qed.

Lemma sorted_order_free l1 l2 : l1 ≡ₚ l2 → sorted l1 = sorted l2.
Proof.
  intros Hp. apply (Sorted_unique path_le); try apply sorted_Sorted.
  by rewrite !sorted_Permutation.
Qed.

(** ** Names and extensions *)

Lemma lower_char_dot a : Str.lower_char a = "."%char → a = "."%char.
Proof. destruct a as [[] [] [] [] [] [] [] []]; vm_compute; congruence. Qed.

Lemma lower_char_4 a : Str.lower_char a = "4"%char → a = "4"%char.
Proof. destruct a as [[] [] [] [] [] [] [] []]; vm_compute; congruence. Qed.

Lemma lower_char_m a :
  Str.lower_char a = "m"%char → a = "m"%char ∨ a = "M"%char.
Proof.
  destruct a as [[] [] [] [] [] [] [] []]; vm_compute; intros Hc;
    first [discriminate Hc | by left | by right].
Qed.

Lemma lower_char_p a :
  Str.lower_char a = "p"%char → a = "p"%char ∨ a = "P"%char.
Proof.
  destruct a as [[] [] [] [] [] [] [] []]; vm_compute; intros Hc;
    first [discriminate Hc | by left | by right].
Qed.

Lemma lower_mp4 s : Str.lower s = ".mp4" ↔ s ∈ mp4_spellings.
Proof.
  unfold mp4_spellings. split.
  - destruct s as [|a [|b [|c [|d [|e s]]]]]; simpl; try discriminate.
    intros [= ->%lower_char_dot Hb%lower_char_m Hc%lower_char_p
              ->%lower_char_4].
    rewrite !elem_of_cons.
    destruct Hb as [-> | ->], Hc as [-> | ->]; auto.
  - rewrite !elem_of_cons, elem_of_nil.
    intros [-> | [-> | [-> | [-> | []]]]]; reflexivity.
Qed.

Lemma empty_not_spelling : EmptyString ∉ mp4_spellings.
Proof.
  unfold mp4_spellings. rewrite !elem_of_cons, elem_of_nil.
  intros [|[|[|[|[]]]]]; discriminate.
Qed.

Lemma str_length_app s t :
  String.length (s +:+ t) = String.length s + String.length t.
Proof. induction s as [|a s IH]; simpl; [done|]. by rewrite IH. Qed.

Lemma str_take_drop i s : Str.take i s +:+ Str.drop i s = s.
Proof.
  revert s. induction i as [|i IH]; intros [|a s]; simpl; try done.
  change (String a (Str.take i s +:+ Str.drop i s) = String a s).
  by rewrite IH.
Qed.

Lemma str_drop_app s t : Str.drop (String.length s) (s +:+ t) = t.
Proof. induction s as [|a s IH]; simpl; [by destruct t|done]. Qed.

Lemma rfind_lt c s i : Str.rfind c s = Some i → i < String.length s.
Proof.
  revert i. induction s as [|a s IH]; simpl; [done|]. intros i.
  destruct (Str.rfind c s) as [j|].
  - intros [= <-]. specialize (IH j eq_refl). lia.
  - case_decide; [|done]. intros [= <-]. lia.
Qed.

Lemma rfind_app c s t i :
  Str.rfind c t = Some i → Str.rfind c (s +:+ t) = Some (String.length s + i).
Proof.
  intros Ht. induction s as [|a s IH]; simpl; [done|]. by rewrite IH.
Qed.

Lemma str_take_nonempty i s :
  0 < i → i < String.length s → Str.take i s ≠ EmptyString.
Proof. destruct i, s; simpl; try lia; done. Qed.

(** The test of line 183 accepts exactly the names that end, after a
    non-empty stem, in a spelling of [.mp4]. *)
Lemma is_mp4_spec p :
  is_mp4 p = true ↔ ∃ ext, ext ∈ mp4_spellings ∧ has_extension (name p) ext.
Proof.
  unfold is_mp4, has_extension. rewrite bool_decide_eq_true, lower_mp4.
  unfold suffix. split.
  - destruct (Str.rfind "." (name p)) as [i|] eqn:Hr;
      [|by intros ?%empty_not_spelling].
    case_decide as Hi; [|by intros ?%empty_not_spelling].
    intros Hext. exists (Str.drop i (name p)). split; [done|].
    exists (Str.take i (name p)). split; [|by rewrite str_take_drop].
    apply str_take_nonempty; [lia|]. by eapply rfind_lt.
  - intros (ext & Hext & stem & Hstem & Hn). rewrite Hn.
    assert (Hdot : Str.rfind "." ext = Some 0 ∧ String.length ext = 4).
    { unfold mp4_spellings in Hext.
      rewrite !elem_of_cons, elem_of_nil in Hext.
      destruct Hext as [-> | [-> | [-> | [-> | []]]]]; done. }
    destruct Hdot as [Hdot Hlen].
    rewrite (rfind_app _ _ _ _ Hdot), Nat.add_0_r, str_length_app, Hlen.
    rewrite decide_True.
    + by rewrite str_drop_app.
    + destruct stem; [done|]. simpl. lia.
Qed.

(** ** Clip enumeration *)

Section Enumeration.
Context {G : PRNG} {E : Env}.

Lemma is_child_of_spec folder p :
  is_child_of folder p = true ↔ ∃ n, p = child folder n.
Proof.
  unfold is_child_of, child. rewrite bool_decide_eq_true. split.
  - intros [Hl Ht].
    destruct (drop (length folder) p) as [|n [|? ?]] eqn:Hd.
    + apply (f_equal length) in Hd. rewrite length_drop in Hd.
      simpl in Hd. lia.
    + exists n. by rewrite <- (take_drop (length folder) p), Ht, Hd.
    + apply (f_equal length) in Hd. rewrite length_drop in Hd.
      simpl in Hd. lia.
  - intros [n ->]. split.
    + rewrite length_app. simpl. lia.
    + by rewrite take_app_length.
Qed.

Lemma elem_of_iterdir (w : World) folder p :
  p ∈ iterdir w folder
  ↔ (p ∈ w_files w ∨ p ∈ w_dirs w) ∧ ∃ n, p = child folder n.
Proof.
  unfold iterdir.
  rewrite list_elem_of_filter, elem_of_elements, elem_of_union.
  rewrite <- is_child_of_spec, Is_true_true. tauto.
Qed.

Lemma NoDup_iterdir (w : World) folder : NoDup (iterdir w folder).
Proof. apply NoDup_filter, NoDup_elements. Qed.

Lemma enumerate_clips_Permutation is_f l :
  enumerate_clips is_f l ≡ₚ filter (λ p, is_mp4 p && is_f p) l.
Proof. apply sorted_Permutation. Qed.

Lemma enumerate_clips_order_free is_f l1 l2 :
  l1 ≡ₚ l2 → enumerate_clips is_f l1 = enumerate_clips is_f l2.
Proof. intros Hp. apply sorted_order_free. by rewrite Hp. Qed.

Lemma elem_of_enumerate_clips is_f l p :
  p ∈ enumerate_clips is_f l ↔ is_mp4 p = true ∧ is_f p = true ∧ p ∈ l.
Proof.
  rewrite enumerate_clips_Permutation, list_elem_of_filter.
  rewrite <- !Is_true_true, andb_True. tauto.
Qed.

(** C9.  Whatever order the operating system lists the folder in, the
    enumerated clips are exactly the regular files that lie directly in the
    folder and whose name ends in [.mp4] up to case; no clip is listed
    twice; the result is sorted by path; and any other listing order of the
    same entries gives the same list. *)
Theorem enumerate_clips_spec (w : World) (folder : Path)
    (listing : list Path) :
  listing ≡ₚ iterdir w folder →
  let clips := enumerate_clips (is_file w) listing in
  (∀ p, p ∈ clips ↔
        (∃ n, p = child folder n) ∧ p ∈ w_files w
        ∧ ∃ ext, ext ∈ mp4_spellings ∧ has_extension (name p) ext)
  ∧ NoDup clips
  ∧ StronglySorted path_le clips
  ∧ ∀ listing', listing' ≡ₚ listing →
                enumerate_clips (is_file w) listing' = clips.
Proof.
  intros Hl clips. split; [|split; [|split]].
  - intros p. unfold clips. rewrite elem_of_enumerate_clips, Hl.
    rewrite elem_of_iterdir, is_mp4_spec. unfold is_file.
    rewrite bool_decide_eq_true. tauto.
  - unfold clips. rewrite enumerate_clips_Permutation, Hl.
    apply NoDup_filter, NoDup_iterdir.
  - apply (Sorted_StronglySorted path_le), sorted_Sorted.
  - intros listing' Hl'. by apply enumerate_clips_order_free.
Qed.

End Enumeration.

(** The folder of the example, listed in two different orders. *)
Lemma enumerate_clips_spec_witness :
  let listing := [ ["clips"; "notes.txt"]; ["clips"; "c.MP4"];
                   ["clips"; "sub"]; ["clips"; "b.mp4"]; ["clips"; "a.mp4"] ] in
  enumerate_clips (is_file Demo.world) listing
  = [ ["clips"; "a.mp4"]; ["clips"; "b.mp4"]; ["clips"; "c.MP4"] ]
  ∧ enumerate_clips (is_file Demo.world) (reverse listing)
    = enumerate_clips (is_file Demo.world) listing.
Proof.
  intros listing.
  assert (Hl : listing ≡ₚ iterdir Demo.world ["clips"]).
  { apply (bool_decide_unpack _). vm_compute. exact I. }
  destruct (enumerate_clips_spec (G := Demo.lcg)
              Demo.world ["clips"] listing Hl) as (_ & _ & _ & Hfree).
  split; [by vm_compute|].
  apply Hfree. by rewrite reverse_Permutation.
Defined.

(** ** The shuffle *)

Section Shuffle.
Context {G : PRNG} {E : Env}.

Lemma insert_Permutation_delete {A} (l : list A) i a :
  i < length l → <[i:=a]> l ≡ₚ a :: delete i l.
Proof.
  intros Hi. rewrite insert_take_drop, delete_take_drop by done.
  by rewrite <- Permutation_middle.
Qed.

Lemma swap_Some {A} (x : list A) i j :
  i < length x → j < length x → is_Some (swap i j x).
Proof.
  intros [b Hb]%lookup_lt_is_Some_2 [a Ha]%lookup_lt_is_Some_2.
  unfold swap. rewrite Ha, Hb. simpl. eauto.
Qed.

Lemma swap_Permutation {A} (x x' : list A) i j :
  swap i j x = Some x' → x' ≡ₚ x.
Proof.
  unfold swap. destruct (x !! j) as [a|] eqn:Ha; [simpl|done].
  destruct (x !! i) as [b|] eqn:Hb; [simpl|done]. intros [= <-].
  pose proof (lookup_lt_Some _ _ _ Ha) as Hj.
  pose proof (lookup_lt_Some _ _ _ Hb) as Hi.
  destruct (decide (i = j)) as [->|Hij].
  - assert (a = b) as -> by congruence.
    by rewrite (list_insert_id x j b), (list_insert_id x j b).
  - set (x1 := <[i:=a]> x).
    assert (Hx1 : x1 !! j = Some a)
      by (unfold x1; by rewrite list_lookup_insert_ne).
    assert (Hd : delete j x1 ≡ₚ delete i x).
    { apply Permutation_cons_inv with a.
      rewrite <- (delete_Permutation x1 j a Hx1).
      by apply insert_Permutation_delete. }
    rewrite insert_Permutation_delete
      by (unfold x1; by rewrite length_insert).
    by rewrite Hd, <- (delete_Permutation x i b Hb).
Qed.

Lemma swap_length {A} (x x' : list A) i j :
  swap i j x = Some x' → length x' = length x.
Proof. intros Hs. by rewrite (swap_Permutation _ _ _ _ Hs). Qed.

(** The loop never leaves the list, so no [IndexError] can arise, and it
    only rearranges. *)
Lemma shuffle_from_Permutation i x g :
  i < length x ∨ i = 0 →
  ∃ x' g', shuffle_from i x g = Some (x', g') ∧ x' ≡ₚ x.
Proof.
  revert x g. induction i as [|i IH]; intros x g Hi; simpl; [by eauto|].
  destruct Hi as [Hi|]; [|done].
  pose proof (rng_below_lt (S (S i)) g) as Hj.
  destruct (rng_below (S (S i)) g) as [j g']. simpl in Hj.
  destruct (swap_Some x (S i) j) as [x1 Hx1]; [lia..|].
  rewrite Hx1. simpl.
  destruct (IH x1 g') as (x' & g'' & Hs & Hp).
  { left. rewrite (swap_length _ _ _ _ Hx1). lia. }
  exists x', g''. split; [done|].
  by rewrite Hp, (swap_Permutation _ _ _ _ Hx1).
Qed.

Lemma shuffle_Permutation x g :
  ∃ x' g', shuffle x g = Some (x', g') ∧ x' ≡ₚ x.
Proof. apply shuffle_from_Permutation. destruct x; simpl; lia. Qed.

(** Lines 197-201 always produce an order: the start, then a rearrangement
    of the clips different from it. *)
Lemma plan_order_Done seed clips start (w : World) :
  ∃ others g',
    plan_order seed clips start w = (Done (start :: others), set_rng g' w)
    ∧ others ≡ₚ filter (λ p, p ≠ start) clips.
Proof.
  unfold plan_order.
  destruct (shuffle_Permutation (filter (λ p, p ≠ start) clips)
              match seed with Some s => rng_seed s | None => w_rng w end)
    as (x' & g' & -> & Hp).
  eauto.
Qed.

(** With a seed, the generator state the run starts from plays no part. *)
Lemma plan_order_seeded s clips start (w1 w2 : World) :
  (plan_order (Some s) clips start w1).1
  = (plan_order (Some s) clips start w2).1.
Proof.
  unfold plan_order.
  by destruct (shuffle (filter (λ p, p ≠ start) clips) (rng_seed s))
    as [[? ?]|].
Qed.

(** When the start is one of the clips and no clip is listed twice, the
    order has as many entries as there are clips, none twice, and holds
    exactly the clips. *)
Lemma plan_order_member seed clips start (w : World) ordered w' :
  NoDup clips → start ∈ clips →
  plan_order seed clips start w = (Done ordered, w') →
  ordered !! 0 = Some start ∧ length ordered = length clips
  ∧ NoDup ordered ∧ ordered ≡ₚ clips
  ∧ tail ordered ≡ₚ filter (λ p, p ≠ start) clips.
Proof.
  intros Hnd Hin Hplan.
  destruct (plan_order_Done seed clips start w) as (others & g' & Hd & Hp).
  rewrite Hd in Hplan. injection Hplan as <- <-.
  assert (Hall : start :: others ≡ₚ clips).
  { rewrite Hp. apply NoDup_Permutation; [|done|].
    - constructor; [|by apply NoDup_filter].
      rewrite list_elem_of_filter. tauto.
    - intros p. rewrite elem_of_cons, list_elem_of_filter.
      destruct (decide (p = start)) as [->|Hne].
      + split; [by intros _ | by left].
      + split; [by intros [?|[_ ?]] | by right]. }
  split_and!; [done| by rewrite Hall | by rewrite Hall | done | done].
Qed.

End Shuffle.

(** ** The monad *)

Section Monad.
Context {G : PRNG} {E : Env}.

(** A computation is its outcome paired with the machine it leaves. *)
Lemma outcome_pair {A} (m : M A) (w : World) r :
  (m w).1 = r → m w = (r, (m w).2).
Proof. intros <-. by destruct (m w). Qed.

Lemma bind_Done {A B} (m : M A) (f : A → M B) (w w' : World) a :
  m w = (Done a, w') → (m ≫= f) w = f a w'.
Proof. intros Hm. unfold mbind, M_bind. by rewrite Hm. Qed.



Lemma same_fs_refl (w : World) : same_fs w w.
Proof. by split. Qed.

Lemma fs_determined_ret {A} (a : A) : fs_determined (mret a : M A).
Proof. intros w1 w2 Hw. by split. Qed.

Lemma fs_determined_bind {A B} (m : M A) (f : A → M B) :
  fs_determined m → (∀ a, fs_determined (f a)) → fs_determined (m ≫= f).
Proof.
  intros Hm Hf w1 w2 Hw. destruct (Hm w1 w2 Hw) as [Hr Hw'].
  unfold mbind, M_bind.
  destruct (m w1) as [[a1|c1|e1] w1'], (m w2) as [[a2|c2|e2] w2'];
    simpl in *; try discriminate; simplify_eq; [by apply Hf|by split..].
Qed.

Lemma fs_determined_check_tool tool : fs_determined (check_tool tool).
Proof.
  intros w1 w2 [Hf Hd]. unfold check_tool.
  destruct (tool_found tool); by repeat split.
Qed.

Lemma fs_determined_check_ffmpeg : fs_determined check_ffmpeg.
Proof.
  apply fs_determined_bind; [|intros _]; apply fs_determined_check_tool.
Qed.

Lemma fs_determined_probe_size p : fs_determined (probe_size p).
Proof.
  intros w1 w2 [Hf Hd]. unfold probe_size.
  destruct (ffprobe_run (ffprobe_cmd p) ≫= parse_size); by repeat split.
Qed.

Lemma fs_determined_resolve_size a p : fs_determined (resolve_size a p).
Proof.
  unfold resolve_size. destruct (truthy (a_width a) && truthy (a_height a)).
  - apply fs_determined_ret.
  - apply fs_determined_bind; [apply fs_determined_probe_size|].
    intros wh. apply fs_determined_ret.
Qed.

Lemma fs_determined_plan_order s clips start :
  fs_determined (plan_order (Some s) clips start).
Proof.
  intros w1 w2 [Hf Hd]. unfold plan_order.
  destruct (shuffle _ (rng_seed s)) as [[others g']|]; by repeat split.
Qed.

Lemma fs_determined_plan_run a s folder :
  a_seed a = Some s → fs_determined (plan_run a folder).
Proof.
  intros Hs w1 w2 [Hf Hd]. unfold plan_run.
  assert (Hc : enumerate_clips (is_file w1) (iterdir w1 folder)
               = enumerate_clips (is_file w2) (iterdir w2 folder)).
  { unfold iterdir, is_file. by rewrite Hf, Hd. }
  rewrite Hc.
  destruct (enumerate_clips (is_file w2) (iterdir w2 folder)) as [|c cs];
    [by repeat split|].
  assert (Hr : resolve_start w1 folder (c :: cs) (a_start a)
               = resolve_start w2 folder (c :: cs) (a_start a)).
  { unfold resolve_start, exists_, is_file, is_dir. by rewrite Hf, Hd. }
  rewrite Hr.
  destruct (resolve_start w2 folder (c :: cs) (a_start a)) as [sp|];
    [|by repeat split].
  rewrite Hs.
  apply (fs_determined_bind (plan_order (Some s) (c :: cs) sp) _);
    [apply fs_determined_plan_order| |by split].
  intros ordered. apply fs_determined_bind; [apply fs_determined_resolve_size|].
  intros size. apply fs_determined_ret.
Qed.

(** With a seed and the same arguments, two runs that find the same files
    and directories settle on the same plan, whatever state the generator
    was in. *)
Lemma prepare_fs_determined (a : Args) (s : Z) (w1 w2 : World) :
  a_seed a = Some s →
  w_files w1 = w_files w2 → w_dirs w1 = w_dirs w2 →
  (prepare a w1).1 = (prepare a w2).1.
Proof.
  intros Hs Hf Hd. unfold prepare, is_dir. rewrite Hd.
  destruct (negb _); [done|].
  apply (fs_determined_bind check_ffmpeg (λ _, plan_run a _)).
  - apply fs_determined_check_ffmpeg.
  - intros _. by eapply fs_determined_plan_run.
  - by split.
Qed.

End Monad.

(** ** What [main] has settled before the two branches *)

Section Prepare.
Context {G : PRNG} {E : Env}.

Lemma enumerate_log e (w : World) folder :
  enumerate_clips (is_file (log e w)) (iterdir (log e w) folder)
  = enumerate_clips (is_file w) (iterdir w folder).
Proof. reflexivity. Qed.

Lemma resolve_start_log e (w : World) folder clips start :
  resolve_start (log e w) folder clips start
  = resolve_start w folder clips start.
Proof. reflexivity. Qed.

(** Line 195 is reached exactly when nothing exists at the resolved path and
    no clip bears the requested name. *)
Lemma resolve_start_None (w : World) folder clips start :
  resolve_start w folder clips start = None
  ↔ exists_ w (resolve_under folder start) = false
    ∧ ∀ p, p ∈ clips → name p ≠ start.
Proof.
  unfold resolve_start.
  destruct (exists_ w (resolve_under folder start)); simpl.
  - split; [done | by intros [? _]].
  - rewrite head_None. split.
    + intros Hnil. split; [done|]. intros p Hp Hn.
      by eapply (filter_nil_not_elem_of _ _ p Hnil).
    + intros [_ Hno].
      destruct (filter (λ p, name p = start) clips) as [|p l] eqn:Hf; [done|].
      assert (Hp : p ∈ filter (λ p, name p = start) clips)
        by (rewrite Hf; left).
      apply list_elem_of_filter in Hp as [Hn Hp]. by destruct (Hno p Hp).
Qed.

(** Whatever lies at the resolved path is taken as the start, clip or not. *)
Lemma resolve_start_exists (w : World) folder clips start :
  exists_ w (resolve_under folder start) = true →
  resolve_start w folder clips start = Some (resolve_under folder start).
Proof. intros He. unfold resolve_start. by rewrite He. Qed.

(** The probe always answers, and leaves one trace entry. *)
Lemma probe_size_Done p (w : World) :
  ∃ wh, probe_size p w = (Done wh, log (Spawn (ffprobe_cmd p)) w).
Proof.
  unfold probe_size.
  destruct (ffprobe_run (ffprobe_cmd p) ≫= parse_size); eauto.
Qed.

(** Lines 205-209 always yield a size; they probe unless both dimensions
    are given and non-zero. *)
Lemma resolve_size_Done a p (w : World) :
  ∃ size,
    resolve_size a p w
    = (Done size,
       if truthy (a_width a) && truthy (a_height a) then w
       else log (Spawn (ffprobe_cmd p)) w).
Proof.
  unfold resolve_size.
  destruct (truthy (a_width a) && truthy (a_height a)); [by eexists|].
  destruct (probe_size_Done p w) as [wh Hwh].
  rewrite (bind_Done _ _ _ _ _ Hwh). by eexists.
Qed.

(** When [main] gets past line 210: what it has found, and what it did. *)
Lemma prepare_inr a (w : World) pl w1 :
  prepare a w = (Done (inr pl), w1) →
  pl_clips pl
  = enumerate_clips (is_file w) (iterdir w (resolve_arg (a_folder a)))
  ∧ resolve_start w (resolve_arg (a_folder a)) (pl_clips pl) (a_start a)
    = Some (pl_start pl)
  ∧ (∃ others,
        pl_ordered pl = pl_start pl :: others
        ∧ others ≡ₚ filter (λ p, p ≠ pl_start pl) (pl_clips pl))
  ∧ pl_output pl = resolve_arg (a_output a)
  ∧ w_files w1 = w_files w ∧ w_dirs w1 = w_dirs w
  ∧ w_trace w1
    = w_trace w
      ++ [Spawn ["ffmpeg"; "-version"]; Spawn ["ffprobe"; "-version"]]
      ++ (if truthy (a_width a) && truthy (a_height a) then []
          else [Spawn (ffprobe_cmd (pl_start pl))]).
Proof.
  unfold prepare. destruct (negb _); [done|].
  unfold check_ffmpeg, check_tool, mbind, M_bind.
  destruct (tool_found "ffmpeg"); [|done].
  destruct (tool_found "ffprobe"); [|done].
  unfold plan_run. rewrite !enumerate_log.
  destruct (enumerate_clips _ _) as [|c cs] eqn:Hc; [done|].
  rewrite !resolve_start_log.
  destruct (resolve_start w _ (c :: cs) (a_start a)) as [sp|] eqn:Hr; [|done].
  set (w0 := log _ (log _ w)).
  destruct (plan_order_Done (a_seed a) (c :: cs) sp w0)
    as (others & g' & Hd & Hp).
  rewrite (bind_Done _ _ _ _ _ Hd).
  destruct (resolve_size_Done a sp (set_rng g' w0)) as [size Hsz].
  rewrite (bind_Done _ _ _ _ _ Hsz). unfold mret, M_ret.
  intros ?; simplify_eq. simpl.
  destruct (truthy (a_width a) && truthy (a_height a)); simpl;
    rewrite <- ?app_assoc; split_and!; eauto.
Qed.

(** The play order of a run is what [plan_order] made of its clips and its
    start. *)
Lemma prepare_ordered a (w : World) pl w1 :
  prepare a w = (Done (inr pl), w1) →
  ∃ w0 w0',
    plan_order (a_seed a) (pl_clips pl) (pl_start pl) w0
    = (Done (pl_ordered pl), w0').
Proof.
  unfold prepare. destruct (negb _); [done|].
  unfold check_ffmpeg, check_tool, mbind, M_bind.
  destruct (tool_found "ffmpeg"); [|done].
  destruct (tool_found "ffprobe"); [|done].
  unfold plan_run.
  destruct (enumerate_clips _ _) as [|c cs] eqn:Hc; [done|].
  destruct (resolve_start _ _ (c :: cs) (a_start a)) as [sp|] eqn:Hr; [|done].
  set (w0 := log _ (log _ w)).
  destruct (plan_order_Done (a_seed a) (c :: cs) sp w0)
    as (others & g' & Hd & Hp).
  rewrite (bind_Done _ _ _ _ _ Hd).
  destruct (resolve_size_Done a sp (set_rng g' w0)) as [size Hsz].
  rewrite (bind_Done _ _ _ _ _ Hsz). unfold mret, M_ret.
  intros ?; simplify_eq. simpl. eauto.
Qed.

Lemma plan_order_seeded_order s clips start (w : World) ordered w' :
  plan_order (Some s) clips start w = (Done ordered, w') →
  seeded_order s clips start = Some ordered.
Proof.
  unfold plan_order, seeded_order.
  destruct (shuffle _ _) as [[others g']|]; simpl; [|done].
  by intros [= <- _].
Qed.

End Prepare.

(** ** Seeded runs (lines 197-201) *)

Section Seeded.
Context {G : PRNG}.

(** C3.  With a seed on the command line, the play order of a run is a
    function of the seed, the enumerated clips in their sorted order, and
    the start, and of nothing else.  So two runs with the same seed that
    enumerate the same clip sequence and resolve the same start have the
    same play order, whatever else differs between them: the other
    arguments, fast or normal mode, what the tools answer, the rest of the
    file system (a run and its repetition, where the output is new), what
    was done before, and the state the generator was in. *)
Theorem seeded_order_reproducible (E1 E2 : Env) (a1 a2 : Args) (s : Z)
    (w1 w2 w1' w2' : World) (pl1 pl2 : Plan) :
  a_seed a1 = Some s →
  a_seed a2 = Some s →
  @prepare G E1 a1 w1 = (Done (inr pl1), w1') →
  @prepare G E2 a2 w2 = (Done (inr pl2), w2') →
  pl_clips pl1 = pl_clips pl2 →
  pl_start pl1 = pl_start pl2 →
  pl_ordered pl1 = pl_ordered pl2
  ∧ seeded_order s (pl_clips pl1) (pl_start pl1) = Some (pl_ordered pl1)
  ∧ seeded_order s (pl_clips pl2) (pl_start pl2) = Some (pl_ordered pl2).
Proof.
  intros Hs1 Hs2 Hp1 Hp2 Hc Hst.
  destruct (prepare_ordered (E := E1) _ _ _ _ Hp1) as (u1 & u1' & Ho1).
  destruct (prepare_ordered (E := E2) _ _ _ _ Hp2) as (u2 & u2' & Ho2).
  rewrite Hs1 in Ho1. rewrite Hs2 in Ho2.
  apply plan_order_seeded_order in Ho1, Ho2.
  split_and!; [|done|done].
  rewrite Hc, Hst, Ho2 in Ho1. by injection Ho1.
Qed.

End Seeded.

(** A normal run, and then a fast run on the machine the first one left
    behind (the output is new, the generator has moved on), with another
    answer of the probe: seed 42 gives the same play order. *)
Lemma seeded_order_reproducible_witness :
  let E1 := Demo.env (Some "640x480") Demo.all_ok in
  let E2 := Demo.env (Some "1280x720") Demo.all_ok in
  let w2 := (@main Demo.lcg E1 (Demo.args "b.mp4" false) Demo.world).2 in
  ∃ pl1 pl2,
    (@prepare Demo.lcg E1 (Demo.args "b.mp4" false) Demo.world).1
    = Done (inr pl1)
    ∧ (@prepare Demo.lcg E2 (Demo.args "b.mp4" true) w2).1 = Done (inr pl2)
    ∧ pl_size pl1 ≠ pl_size pl2
    ∧ pl_ordered pl1 = pl_ordered pl2.
Proof.
  intros E1 E2 w2.
  pose (clips := [["clips"; "a.mp4"]; ["clips"; "b.mp4"];
                  ["clips"; "c.MP4"]]).
  pose (ordered := [["clips"; "b.mp4"]; ["clips"; "a.mp4"];
                    ["clips"; "c.MP4"]]).
  pose (pl1 := mkPlan clips ["clips"; "b.mp4"] ordered (640, 480)%Z
                 ["out"; "Sora_Reel.mp4"]).
  pose (pl2 := mkPlan clips ["clips"; "b.mp4"] ordered (1280, 720)%Z
                 ["out"; "Sora_Reel.mp4"]).
  assert (Hp1 : (@prepare Demo.lcg E1 (Demo.args "b.mp4" false)
                   Demo.world).1 = Done (inr pl1))
    by (vm_compute; reflexivity).
  assert (Hp2 : (@prepare Demo.lcg E2 (Demo.args "b.mp4" true) w2).1
                = Done (inr pl2))
    by (vm_compute; reflexivity).
  exists pl1, pl2. split_and!; [exact Hp1|exact Hp2|discriminate|].
  destruct (@seeded_order_reproducible Demo.lcg E1 E2
              (Demo.args "b.mp4" false) (Demo.args "b.mp4" true) 42
              Demo.world w2 _ _ pl1 pl2 eq_refl eq_refl
              (outcome_pair _ _ _ Hp1) (outcome_pair _ _ _ Hp2)
              eq_refl eq_refl) as [Ho _].
  exact Ho.
Defined.


(** ** Profile resolution *)

Lemma truthy_true v : truthy v = true ↔ ∃ n, v = Some n ∧ n ≠ 0%Z.
Proof.
  destruct v as [n|]; simpl.
  - destruct (Z.eqb_spec n 0); simpl; split; try done.
    + by intros (? & [= <-] & ?).
    + eauto.
  - split; [done | by intros (? & ? & ?)].
Qed.

Lemma truthy_false v : truthy v = false ↔ v = None ∨ v = Some 0%Z.
Proof.
  destruct v as [n|]; simpl.
  - destruct (Z.eqb_spec n 0) as [->|Hn]; simpl; split; auto.
    + done.
    + by intros [|[= ->]].
  - split; auto.
Qed.

Lemma or_else_given v d n : v = Some n → n ≠ 0%Z → or_else v d = n.
Proof. intros -> Hn. simpl. by destruct (Z.eqb_spec n 0). Qed.

Lemma or_else_unset v d : v = None ∨ v = Some 0%Z → or_else v d = d.
Proof. by intros [-> | ->]. Qed.

Section Size.
Context {G : PRNG} {E : Env}.

Lemma probe_size_eq p (w : World) :
  probe_size p w
  = (Done (default (1920, 1080)%Z
             (ffprobe_run (ffprobe_cmd p) ≫= parse_size)),
     log (Spawn (ffprobe_cmd p)) w).
Proof.
  unfold probe_size.
  by destruct (ffprobe_run (ffprobe_cmd p) ≫= parse_size).
Qed.

(** Resolving the size always ends normally.  When
    width and height are both given and neither is 0, they are the size and
    no probe is run.  In every other case (a dimension absent, or given as
    0) the starting clip is probed exactly once; a dimension given and not
    0 is kept, and each other one takes the probed value, which is
    1920x1080 whenever the probe fails or its output does not parse. *)
Theorem resolve_size_policy (a : Args) (start : Path) (w : World) :
  ∃ size w',
    resolve_size a start w = (Done size, w')
    ∧ (∀ wd ht, a_width a = Some wd → a_height a = Some ht →
                wd ≠ 0%Z → ht ≠ 0%Z → size = (wd, ht) ∧ w' = w)
    ∧ (a_width a = None ∨ a_width a = Some 0%Z
       ∨ a_height a = None ∨ a_height a = Some 0%Z →
       let probed := default (1920, 1080)%Z
                       (ffprobe_run (ffprobe_cmd start) ≫= parse_size) in
       w' = log (Spawn (ffprobe_cmd start)) w
       ∧ (∀ wd, a_width a = Some wd → wd ≠ 0%Z → size.1 = wd)
       ∧ (a_width a = None ∨ a_width a = Some 0%Z → size.1 = probed.1)
       ∧ (∀ ht, a_height a = Some ht → ht ≠ 0%Z → size.2 = ht)
       ∧ (a_height a = None ∨ a_height a = Some 0%Z → size.2 = probed.2)
       ∧ (ffprobe_run (ffprobe_cmd start) = None → probed = (1920, 1080)%Z)
       ∧ (∀ out, ffprobe_run (ffprobe_cmd start) = Some out →
                 parse_size out = None → probed = (1920, 1080)%Z)).
Proof.
  unfold resolve_size.
  destruct (truthy (a_width a) && truthy (a_height a)) eqn:Ht.
  - apply andb_true_iff in Ht as [Hw Hh].
    apply truthy_true in Hw as (wd & Hw & Hwd).
    apply truthy_true in Hh as (ht & Hh & Hht).
    exists (wd, ht), w. rewrite Hw, Hh. split; [done|]. split.
    + by intros ?? [= <-] [= <-] ??.
    + intros [?|[?|[?|?]]]; congruence.
  - rewrite (bind_Done _ _ _ _ _ (probe_size_eq start w)).
    eexists _, _. split; [reflexivity|]. split.
    + intros wd ht Hw Hh Hwd Hht.
      assert (truthy (a_width a) = true) as Hw'
        by (apply truthy_true; eauto).
      assert (truthy (a_height a) = true) as Hh'
        by (apply truthy_true; eauto).
      by rewrite Hw', Hh' in Ht.
    + intros _. simpl. split_and!; [done| | | | | |].
      * intros wd. apply or_else_given.
      * apply or_else_unset.
      * intros ht. apply or_else_given.
      * apply or_else_unset.
      * by intros ->.
      * intros out Ho Hp. rewrite Ho. simpl. by rewrite Hp.
Qed.

End Size.

(** Width 0 with height 1080 on the command line, the starting clip being
    640x480: both dimensions are given, yet the clip is probed and the size
    is 640x1080, not 0x1080. *)
Lemma explicit_zero_width_is_probed :
  let E := Demo.env (Some "640x480") Demo.all_ok in
  let a := mkArgs "/clips" "b.mp4" "out.mp4" 30 (Some 0%Z) (Some 1080%Z)
             20 "medium" "192k" None false in
  let r := @resolve_size Demo.lcg E a ["clips"; "b.mp4"] Demo.world in
  a_width a = Some 0%Z ∧ a_height a = Some 1080%Z
  ∧ r.1 = Done (640, 1080)%Z
  ∧ r.1 ≠ Done (0, 1080)%Z
  ∧ w_trace r.2
    = [Spawn ["ffprobe"; "-v"; "error"; "-select_streams"; "v:0";
              "-show_entries"; "stream=width,height"; "-of"; "csv=p=0:s=x";
              "/clips/b.mp4"]].
Proof. vm_compute. split_and!; done. Qed.

(** ** The join (lines 133-157) *)

Section Concat.
Context {G : PRNG} {E : Env}.

Lemma run_eq cmd out (w : World) :
  run cmd out w
  = (run_outcome cmd,
     let w1 := log (Spawn cmd) w in
     if ffmpeg_writes cmd then set_files ({[out]} ∪ w_files w1) w1 else w1).
Proof.
  unfold run, run_outcome. by destruct (ffmpeg_run cmd) as [[| |]|].
Qed.

(** The whole of [concat_via_list].  When the manifest write raises, the
    exception ends it there.  Otherwise its outcome is that of the joiner,
    and [unlink] is tried last. *)
Lemma concat_via_list_eq file_list output (w : World) :
  let list_path := mkstemp_path in
  let cmd := concat_cmd list_path output in
  concat_via_list file_list output w
  = match write_error list_path (manifest file_list) with
    | Some exn =>
        (Uncaught exn,
         mkWorld ({[list_path]} ∪ w_files w) (w_dirs w) (w_rng w)
           (w_trace w ++ [WriteFailed list_path]))
    | None =>
        (run_outcome cmd,
         mkWorld
           (let fs := if ffmpeg_writes cmd
                      then {[output]} ∪ ({[list_path]} ∪ w_files w)
                      else {[list_path]} ∪ w_files w in
            if unlink_ok list_path then fs ∖ {[list_path]} else fs)
           (w_dirs w) (w_rng w)
           (w_trace w ++ [WriteFile list_path (manifest file_list);
                          Spawn cmd; Unlink list_path]))
    end.
Proof.
  simpl. unfold concat_via_list, finally, write_file, mbind, M_bind.
  destruct (write_error _ _); [done|].
  rewrite run_eq. unfold unlink, log, set_files. simpl.
  destruct (ffmpeg_writes _), (unlink_ok _); simpl;
    by rewrite <- !app_assoc.
Qed.

(** The joiner is started only if the manifest could be written.  Once it
    is started then, whatever it does (exit status 0, any other exit
    status, or not even starting), the next and last step is the attempt to
    delete the manifest, and the outcome of the joiner is passed on
    unchanged; a failed attempt is swallowed, so the manifest is gone
    afterwards exactly when the attempt succeeds.  When the write raises,
    the exception leaves [concat_via_list] at once: no joiner, no attempt to
    delete, and the manifest stays. *)
Theorem manifest_unlinked_after_join file_list output (w : World) :
  let list_path := mkstemp_path in
  let cmd := concat_cmd list_path output in
  let r := concat_via_list file_list output w in
  match write_error list_path (manifest file_list) with
  | None =>
      w_trace r.2
      = w_trace w ++ [WriteFile list_path (manifest file_list);
                      Spawn cmd; Unlink list_path]
      ∧ r.1 = match ffmpeg_run cmd with
              | Some 0%Z => Done ()
              | Some code => SystemExit code
              | None => Uncaught "OSError"
              end
      ∧ (list_path ∈ w_files r.2 ↔ unlink_ok list_path = false)
  | Some exn =>
      w_trace r.2 = w_trace w ++ [WriteFailed list_path]
      ∧ r.1 = Uncaught exn
      ∧ list_path ∈ w_files r.2
  end.
Proof.
  simpl. rewrite concat_via_list_eq.
  destruct (write_error _ _) as [exn|]; simpl.
  - split_and!; [done|done|]. apply elem_of_union. left.
    by apply elem_of_singleton.
  - split_and!; [done|done|].
    destruct (unlink_ok _).
    + rewrite elem_of_difference, elem_of_singleton. split; [|done].
      by intros [_ []].
    + split; [done|]. intros _.
      destruct (ffmpeg_writes _); rewrite !elem_of_union, !elem_of_singleton;
        auto.
Qed.

End Concat.

(** ** The manifest (lines 134-137) *)

Lemma str_app_nil_l (t : string) : EmptyString +:+ t = t.
Proof. reflexivity. Qed.

Lemma str_app_cons a (s t : string) : String a s +:+ t = String a (s +:+ t).
Proof. reflexivity. Qed.

Lemma str_app_nil_r (s : string) : s +:+ EmptyString = s.
Proof. induction s as [|a s IH]; [done|]. by rewrite str_app_cons, IH. Qed.

Lemma str_app_assoc (s t u : string) : (s +:+ t) +:+ u = s +:+ (t +:+ u).
Proof.
  induction s as [|a s IH]; [done|]. by rewrite !str_app_cons, IH.
Qed.

Lemma read_token_escaped s rest :
  Joiner.read_token true (Str.replace "'" "'\''" s +:+ String "'" rest)
  = (s +:+ (Joiner.read_token false rest).1,
     (Joiner.read_token false rest).2).
Proof.
  induction s as [|c s IH].
  - simpl. rewrite !str_app_nil_l. simpl.
    by destruct (Joiner.read_token false rest).
  - simpl. destruct (decide (c = "'"%char)) as [->|Hc].
    + rewrite str_app_assoc, !str_app_cons, str_app_nil_l.
      simpl. rewrite IH. by rewrite ?str_app_cons.
    + rewrite !str_app_cons. simpl.
      destruct (decide (c = "'"%char)); [done|].
      rewrite IH. by rewrite ?str_app_cons.
Qed.

Lemma one_line_app s t : one_line (s +:+ t) = one_line s && one_line t.
Proof.
  induction s as [|c s IH]; [done|].
  rewrite str_app_cons. simpl. by rewrite IH, andb_assoc.
Qed.

Lemma one_line_replace s : one_line (Str.replace "'" "'\''" s) = one_line s.
Proof.
  induction s as [|c s IH]; [done|]. simpl.
  destruct (decide (c = "'"%char)) as [->|Hc].
  - rewrite one_line_app, IH. reflexivity.
  - simpl. by rewrite IH.
Qed.

Lemma split_lines_line s t :
  one_line s = true →
  Joiner.split_lines (s +:+ newline +:+ t) = s :: Joiner.split_lines t.
Proof.
  induction s as [|c s IH]; intros Hs.
  - reflexivity.
  - simpl in Hs. apply andb_true_iff in Hs as [Hc Hs].
    rewrite str_app_cons. simpl.
    destruct (Joiner.is_eol c); [done|]. by rewrite (IH Hs).
Qed.

(** One line of the manifest names the path it was written for. *)
Lemma read_line_manifest_line p :
  Joiner.read_line ("file '" +:+ escape_path p +:+ "'") = Some (as_posix p).
Proof.
  unfold Joiner.read_line, escape_path.
  rewrite !str_app_cons, str_app_nil_l. simpl.
  rewrite read_token_escaped. simpl. by rewrite str_app_nil_r.
Qed.

Lemma omap_cons_Some {A B} (f : A → option B) x y l :
  f x = Some y → omap f (x :: l) = y :: omap f l.
Proof. intros Hx. simpl. by rewrite Hx. Qed.

Lemma files_manifest l :
  (∀ p, p ∈ l → one_line (as_posix p) = true) →
  Joiner.files (manifest l) = as_posix <$> l.
Proof.
  unfold Joiner.files, manifest.
  induction l as [|p l IH]; intros Hl; [done|].
  change (manifest_line <$> p :: l) with (manifest_line p :: (manifest_line <$> l)).
  change (Str.concat (manifest_line p :: (manifest_line <$> l)))
    with (manifest_line p +:+ Str.concat (manifest_line <$> l)).
  unfold manifest_line at 1.
  assert (Hre : ∀ t, ("file '" +:+ escape_path p +:+ "'" +:+ newline) +:+ t
                     = ("file '" +:+ escape_path p +:+ "'") +:+ newline +:+ t).
  { intros t. by rewrite !str_app_assoc. }
  rewrite Hre, split_lines_line.
  - rewrite (omap_cons_Some _ _ _ _ (read_line_manifest_line p)).
    change (as_posix <$> p :: l) with (as_posix p :: (as_posix <$> l)).
    f_equal. apply IH. intros q Hq. apply Hl. by right.
  - unfold escape_path. rewrite !one_line_app, one_line_replace.
    rewrite (Hl p) by left. reflexivity.
Qed.

(** The manifest holds one [file '...'] line per input, in the order of the
    list, each ended by a line feed; between the quotes every single quote of
    the path is written as the four characters ['\''] and nothing else is
    changed.  Read with the joiner's quoting rules, the quoted text gives
    back the path exactly, whatever it contains, and a manifest whose paths
    hold no line break lists exactly the inputs, in order. *)
Theorem manifest_reads_back (l : list Path) :
  manifest l
  = Str.concat ((λ p, "file '" +:+ Str.replace "'" "'\''" (as_posix p)
                        +:+ "'" +:+ newline) <$> l)
  ∧ (∀ p rest,
        Joiner.read_token false
          (String "'" (escape_path p +:+ String "'" (newline +:+ rest)))
        = (as_posix p, newline +:+ rest))
  ∧ ((∀ p, p ∈ l → one_line (as_posix p) = true) →
     Joiner.files (manifest l) = as_posix <$> l).
Proof.
  split_and!.
  - reflexivity.
  - intros p rest. simpl. unfold escape_path.
    rewrite read_token_escaped. simpl. by rewrite str_app_nil_r.
  - apply files_manifest.
Qed.

(** A folder whose clip names hold a quote and a blank. *)
Lemma manifest_reads_back_example :
  let l := [["clips"; "it's.mp4"]; ["clips"; "a b.mp4"]] in
  manifest l
  = "file '/clips/it'\''s.mp4'" +:+ newline
    +:+ "file '/clips/a b.mp4'" +:+ newline
  ∧ Joiner.files (manifest l) = ["/clips/it's.mp4"; "/clips/a b.mp4"].
Proof. by vm_compute. Qed.

(** ** Fast mode (lines 214-221) *)

Section Fast.
Context {G : PRNG} {E : Env}.

(** Past line 212 [main] is one of its two branches. *)
Lemma main_inr a (w : World) pl w1 :
  prepare a w = (Done (inr pl), w1) →
  main a w = (if a_fast a then fast_path pl else normal_path a pl) w1.
Proof. intros Hp. unfold main. by rewrite (bind_Done _ _ _ _ _ Hp). Qed.


(** In fast mode the exit of the joiner becomes the value [main] returns;
    an exception from the manifest write goes through. *)
Lemma fast_path_eq pl (w : World) :
  fast_path pl w
  = (match write_error mkstemp_path (manifest (pl_ordered pl)) with
     | Some exn => Uncaught exn
     | None =>
         match ffmpeg_run (concat_cmd mkstemp_path (pl_output pl)) with
         | Some code => Done code
         | None => Uncaught "OSError"
         end
     end,
     (concat_via_list (pl_ordered pl) (pl_output pl) w).2).
Proof.
  unfold fast_path, catch_exit, mbind, M_bind.
  rewrite concat_via_list_eq. unfold run_outcome. simpl.
  destruct (write_error _ _); [done|].
  by destruct (ffmpeg_run _) as [[| |]|].
Qed.

(** A fast run that gets past start resolution spawns the two version
    checks, the size probe if one is due, and then only the joiner: it
    writes the manifest of the play order itself (the source clips, not
    re-encoded copies), runs [ffmpeg -f concat ... -c copy] on it once and
    tries to delete the manifest.  No directory is created, no clip is
    transcoded, and afterwards there is no file that was not there before,
    except possibly the output, and the manifest if its deletion failed.
    [main] returns the joiner's exit status.  If the manifest write raises,
    the run ends with that exception right there: nothing else is spawned
    and the only file that may be new is the manifest. *)
Theorem fast_mode_joins_sources a (w : World) pl w1 :
  a_fast a = true →
  prepare a w = (Done (inr pl), w1) →
  let list_path := mkstemp_path in
  let cmd := ["ffmpeg"; "-y"; "-f"; "concat"; "-safe"; "0"; "-i";
              as_posix list_path; "-c"; "copy"; as_posix (pl_output pl)] in
  let checks := w_trace w
                ++ [Spawn ["ffmpeg"; "-version"]; Spawn ["ffprobe"; "-version"]]
                ++ (if truthy (a_width a) && truthy (a_height a) then []
                    else [Spawn (ffprobe_cmd (pl_start pl))]) in
  let r := main a w in
  w_dirs r.2 = w_dirs w
  ∧ match write_error list_path (manifest (pl_ordered pl)) with
    | None =>
        w_trace r.2
        = checks ++ [WriteFile list_path (manifest (pl_ordered pl));
                     Spawn cmd; Unlink list_path]
        ∧ (∀ p, p ∈ w_files r.2 →
                p ∈ w_files w ∨ p = pl_output pl
                ∨ (p = list_path ∧ unlink_ok list_path = false))
        ∧ r.1 = match ffmpeg_run cmd with
                | Some code => Done code
                | None => Uncaught "OSError"
                end
    | Some exn =>
        w_trace r.2 = checks ++ [WriteFailed list_path]
        ∧ (∀ p, p ∈ w_files r.2 → p ∈ w_files w ∨ p = list_path)
        ∧ r.1 = Uncaught exn
    end.
Proof.
  intros Hfast Hp. simpl.
  rewrite (main_inr _ _ _ _ Hp), Hfast, fast_path_eq, concat_via_list_eq.
  destruct (prepare_inr _ _ _ _ Hp) as (_ & _ & _ & _ & Hf & Hd & Ht).
  destruct (write_error _ _) as [exn|]; simpl;
    rewrite Ht, Hf, Hd, <- !app_assoc; (split; [done|]).
  - split_and!; [done| |done].
    intros p. rewrite elem_of_union, elem_of_singleton.
    intros [->|Hin]; auto.
  - split_and!; [done| |done].
    intros p.
    destruct (ffmpeg_writes _), (unlink_ok _);
      rewrite ?elem_of_difference, ?elem_of_union, !elem_of_singleton.
    + intros [[->|[->|Hin]] Hne]; auto. done.
    + intros [->|[->|Hin]]; auto.
    + intros [[->|Hin] Hne]; auto. done.
    + intros [->|Hin]; auto.
Qed.

(** When a dimension is missing, a fast run still probes the starting clip:
    the probe is the last thing done before the branch, the fast branch is
    then taken, and that branch does the same whatever the size is. *)
Theorem fast_mode_still_probes a (w : World) pl w1 :
  a_fast a = true →
  a_width a = None ∨ a_height a = None →
  prepare a w = (Done (inr pl), w1) →
  w_trace w1
  = w_trace w
    ++ [Spawn ["ffmpeg"; "-version"]; Spawn ["ffprobe"; "-version"];
        Spawn (ffprobe_cmd (pl_start pl))]
  ∧ main a w = fast_path pl w1
  ∧ (∀ size,
        fast_path (mkPlan (pl_clips pl) (pl_start pl) (pl_ordered pl) size
                     (pl_output pl)) w1
        = fast_path pl w1)
  ∧ Spawn (ffprobe_cmd (pl_start pl)) ∈ w_trace (main a w).2.
Proof.
  intros Hfast Hdim Hp.
  rewrite (main_inr _ _ _ _ Hp), Hfast.
  destruct (prepare_inr _ _ _ _ Hp) as (_ & _ & _ & _ & _ & _ & Ht).
  assert (Hnot : truthy (a_width a) && truthy (a_height a) = false).
  { destruct Hdim as [-> | ->]; [done|]. apply andb_false_r. }
  rewrite Hnot in Ht. split_and!; [by rewrite Ht| done | done |].
  rewrite fast_path_eq, concat_via_list_eq.
  destruct (write_error _ _); simpl; rewrite Ht;
    rewrite !elem_of_app; left; right; rewrite !elem_of_cons; auto.
Qed.

End Fast.

Lemma fast_mode_joins_sources_witness :
  let E := Demo.env (Some "640x480") Demo.all_ok in
  let r := @main Demo.lcg E (Demo.args "b.mp4" true) Demo.world in
  w_dirs r.2 = w_dirs Demo.world ∧ r.1 = Done 0%Z.
Proof.
  intros E r.
  pose (pl := mkPlan
          [["clips"; "a.mp4"]; ["clips"; "b.mp4"]; ["clips"; "c.MP4"]]
          ["clips"; "b.mp4"]
          [["clips"; "b.mp4"]; ["clips"; "a.mp4"]; ["clips"; "c.MP4"]]
          (640, 480)%Z ["out"; "Sora_Reel.mp4"]).
  assert (Hp : (@prepare Demo.lcg E (Demo.args "b.mp4" true) Demo.world).1
               = Done (inr pl)) by (vm_compute; reflexivity).
  destruct (@fast_mode_joins_sources Demo.lcg E (Demo.args "b.mp4" true)
              Demo.world pl _ eq_refl (outcome_pair _ _ _ Hp))
    as (Hd & _ & _ & Hr).
  split; [exact Hd | exact Hr].
Defined.

(** The same run when the manifest cannot be written (a clip name that
    cannot be encoded, say): the joiner is never started and the manifest
    is left behind. *)
Lemma fast_mode_write_raises :
  let E := Demo.faulty (Some "UnicodeEncodeError") true Demo.all_ok in
  let r := @main Demo.lcg E (Demo.args "b.mp4" true) Demo.world in
  r.1 = Uncaught "UnicodeEncodeError"
  ∧ w_trace r.2
    = [Spawn ["ffmpeg"; "-version"]; Spawn ["ffprobe"; "-version"];
       Spawn ["ffprobe"; "-v"; "error"; "-select_streams"; "v:0";
              "-show_entries"; "stream=width,height"; "-of"; "csv=p=0:s=x";
              "/clips/b.mp4"];
       WriteFailed ["tmp"; "tmpk3x9.txt"]]
  ∧ bool_decide (["tmp"; "tmpk3x9.txt"] ∈ w_files r.2) = true.
Proof. vm_compute. by split_and!. Qed.

Lemma fast_mode_still_probes_witness :
  let E := Demo.env (Some "640x480") Demo.all_ok in
  Spawn ["ffprobe"; "-v"; "error"; "-select_streams"; "v:0"; "-show_entries";
         "stream=width,height"; "-of"; "csv=p=0:s=x"; "/clips/b.mp4"]
  ∈ w_trace (@main Demo.lcg E (Demo.args "b.mp4" true) Demo.world).2.
Proof.
  intros E.
  pose (pl := mkPlan
          [["clips"; "a.mp4"]; ["clips"; "b.mp4"]; ["clips"; "c.MP4"]]
          ["clips"; "b.mp4"]
          [["clips"; "b.mp4"]; ["clips"; "a.mp4"]; ["clips"; "c.MP4"]]
          (640, 480)%Z ["out"; "Sora_Reel.mp4"]).
  assert (Hp : (@prepare Demo.lcg E (Demo.args "b.mp4" true) Demo.world).1
               = Done (inr pl)) by (vm_compute; reflexivity).
  destruct (@fast_mode_still_probes Demo.lcg E (Demo.args "b.mp4" true)
              Demo.world pl _ eq_refl (or_introl eq_refl)
              (outcome_pair _ _ _ Hp))
    as (_ & _ & _ & Hin).
  exact Hin.
Defined.

(** ** Normal mode (lines 223-245) *)

Section Normal.
Context {G : PRNG} {E : Env}.

Lemma transcodes_cons a size td idx src rest :
  transcodes a size td idx (src :: rest)
  = Spawn (normalize_cmd a size src (part_path td idx))
      :: transcodes a size td (S idx) rest.
Proof.
  unfold transcodes. simpl. rewrite Nat.add_0_r. f_equal.
  apply imap_ext. intros i x _. simpl. by rewrite Nat.add_succ_r.
Qed.

Lemma transcodes_app a size td idx l1 l2 :
  transcodes a size td idx (l1 ++ l2)
  = transcodes a size td idx l1
      ++ transcodes a size td (idx + length l1) l2.
Proof.
  revert idx. induction l1 as [|x l1 IH]; intros idx.
  - simpl. by rewrite Nat.add_0_r.
  - change ((x :: l1) ++ l2) with (x :: (l1 ++ l2)).
    rewrite !transcodes_cons, IH. simpl. by rewrite Nat.add_succ_r.
Qed.

Lemma normalize_clip_eq a size src dst (w : World) :
  normalize_clip a size src dst w
  = (run_outcome (normalize_cmd a size src dst),
     after_run (normalize_cmd a size src dst) dst w).
Proof. unfold normalize_clip. by rewrite run_eq. Qed.

Lemma after_run_frame cmd td n (w : World) :
  let w' := after_run cmd (part_path td n) w in
  w_dirs w' = w_dirs w
  ∧ w_trace w' = w_trace w ++ [Spawn cmd]
  ∧ (∀ p, p ∈ w_files w → p ∈ w_files w')
  ∧ (∀ p, p ∈ w_files w' → p ∈ w_files w ∨ td `prefix_of` p).
Proof.
  unfold after_run. simpl. destruct (ffmpeg_writes cmd); simpl.
  - split_and!; [done|done| |].
    + intros p Hp. apply elem_of_union. by right.
    + intros p. rewrite elem_of_union, elem_of_singleton.
      intros [->|Hp]; [right|by left].
      unfold part_path, child. by apply prefix_app_r.
  - split_and!; auto.
Qed.

Lemma run_outcome_ok cmd : ffmpeg_run cmd = Some 0%Z → run_outcome cmd = Done ().
Proof. unfold run_outcome. by intros ->. Qed.

Lemma run_outcome_failed cmd code :
  ffmpeg_run cmd = Some code → code ≠ 0%Z → run_outcome cmd = SystemExit code.
Proof. unfold run_outcome. intros -> Hc. by destruct code. Qed.

(** The transcoding loop touches no directory, removes no file, and adds
    files only below the directory it was given. *)
Lemma normalize_all_frame a size td srcs idx (w : World) :
  let r := normalize_all a size td idx srcs w in
  w_dirs r.2 = w_dirs w
  ∧ (∀ p, p ∈ w_files w → p ∈ w_files r.2)
  ∧ (∀ p, p ∈ w_files r.2 → p ∈ w_files w ∨ td `prefix_of` p).
Proof.
  revert idx w. induction srcs as [|src rest IH]; intros idx w; simpl.
  - auto.
  - unfold mbind, M_bind. rewrite normalize_clip_eq.
    set (cmd := normalize_cmd a size src (part_path td idx)).
    destruct (after_run_frame cmd td idx w) as (Hd & _ & Hin & Hout).
    destruct (run_outcome cmd); simpl; [|by auto..].
    specialize (IH (S idx) (after_run cmd (part_path td idx) w)).
    simpl in IH. destruct IH as (Hd' & Hin' & Hout').
    destruct (normalize_all a size td (S idx) rest _) as [[?|?|?] w3];
      simpl in *; (split_and!; [congruence | by auto |]);
      intros p Hp; destruct (Hout' p Hp); auto.
Qed.

(** When every transcode succeeds, the loop runs them all, in order, and
    returns the numbered parts. *)
Lemma normalize_all_ok a size td srcs idx (w : World) :
  (∀ i s, srcs !! i = Some s →
          ffmpeg_run (normalize_cmd a size s (part_path td (idx + i)))
          = Some 0%Z) →
  let r := normalize_all a size td idx srcs w in
  r.1 = Done (part_paths td idx (length srcs))
  ∧ w_trace r.2 = w_trace w ++ transcodes a size td idx srcs.
Proof.
  revert idx w. induction srcs as [|src rest IH]; intros idx w Hok; simpl.
  - by rewrite app_nil_r.
  - unfold mbind, M_bind. rewrite normalize_clip_eq.
    set (cmd := normalize_cmd a size src (part_path td idx)).
    destruct (after_run_frame cmd td idx w) as (_ & Ht & _).
    rewrite run_outcome_ok
      by (specialize (Hok 0 src eq_refl); by rewrite Nat.add_0_r in Hok).
    destruct (IH (S idx) (after_run cmd (part_path td idx) w)) as [Hr Htr].
    { intros i s Hi. specialize (Hok (S i) s Hi).
      by rewrite Nat.add_succ_r in Hok. }
    simpl in Hr, Htr.
    destruct (normalize_all a size td (S idx) rest _) as [[parts|?|?] w3];
      simpl in *; try discriminate.
    injection Hr as ->. rewrite Htr, Ht, transcodes_cons, <- app_assoc.
    done.
Qed.

(** When the transcode of [src] fails after those of [before] succeeded, the
    loop stops there with the exit status of the tool. *)
Lemma normalize_all_fails a size td before src after code idx (w : World) :
  (∀ i s, before !! i = Some s →
          ffmpeg_run (normalize_cmd a size s (part_path td (idx + i)))
          = Some 0%Z) →
  ffmpeg_run (normalize_cmd a size src (part_path td (idx + length before)))
  = Some code →
  code ≠ 0%Z →
  let r := normalize_all a size td idx (before ++ src :: after) w in
  r.1 = SystemExit code
  ∧ w_trace r.2 = w_trace w ++ transcodes a size td idx (before ++ [src]).
Proof.
  revert idx w. induction before as [|b before IH];
    intros idx w Hok Hfail Hcode; simpl.
  - unfold mbind, M_bind. rewrite normalize_clip_eq.
    simpl in Hfail. rewrite Nat.add_0_r in Hfail.
    rewrite (run_outcome_failed _ _ Hfail Hcode).
    set (cmd := normalize_cmd a size src (part_path td idx)).
    destruct (after_run_frame cmd td idx w) as (_ & Ht & _). simpl.
    by rewrite Ht, transcodes_cons.
  - unfold mbind, M_bind. rewrite normalize_clip_eq.
    set (cmd := normalize_cmd a size b (part_path td idx)).
    destruct (after_run_frame cmd td idx w) as (_ & Ht & _).
    rewrite run_outcome_ok
      by (specialize (Hok 0 b eq_refl); by rewrite Nat.add_0_r in Hok).
    destruct (IH (S idx) (after_run cmd (part_path td idx) w)) as [Hr Htr].
    { intros i s Hi. specialize (Hok (S i) s Hi).
      by rewrite Nat.add_succ_r in Hok. }
    { simpl in Hfail. by rewrite Nat.add_succ_r in Hfail. }
    { done. }
    simpl in Hr, Htr.
    destruct (normalize_all a size td (S idx) (before ++ src :: after) _)
      as [[parts|?|?] w3]; simpl in *; try discriminate.
    injection Hr as ->. rewrite Htr, Ht.
    change ((b :: before) ++ [src]) with (b :: (before ++ [src])).
    by rewrite transcodes_cons, <- app_assoc.
Qed.

(** *** Leaving the temporary directory *)

Lemma rmtree_dirs (td : Path) (w : World) :
  fresh td w →
  filter (λ p, ¬ td `prefix_of` p) ({[td]} ∪ w_dirs w) = w_dirs w.
Proof.
  intros Hfresh. apply set_eq. intros p.
  rewrite elem_of_filter, elem_of_union, elem_of_singleton. split.
  - intros [Hn [->|Hp]]; [by destruct Hn|done].
  - intros Hp. split; [|by right].
    apply Hfresh. apply elem_of_union. by right.
Qed.

Lemma rmtree_files (td : Path) (w : World) (fs : gset Path) :
  fresh td w →
  (∀ p, p ∈ w_files w → p ∈ fs) →
  (∀ p, p ∈ fs → p ∈ w_files w ∨ td `prefix_of` p) →
  filter (λ p, ¬ td `prefix_of` p) fs = w_files w.
Proof.
  intros Hfresh Hin Hout. apply set_eq. intros p.
  rewrite elem_of_filter. split.
  - intros [Hn Hp]. by destruct (Hout p Hp).
  - intros Hp. split; [|by auto].
    apply Hfresh. apply elem_of_union. by left.
Qed.

(** The normal branch: make the directory, run the loop and the join inside
    it, remove the directory whatever happened, and return 0 if nothing
    ended the run. *)
Lemma normal_path_eq a pl (w : World) :
  let td := mkdtemp_path in
  let w0 := log (Mkdtemp td) (set_dirs ({[td]} ∪ w_dirs w) w) in
  let r := (normalize_all a (pl_size pl) td 0 (pl_ordered pl)
              ≫= λ norm_paths, concat_via_list norm_paths (pl_output pl)) w0 in
  normal_path a pl w
  = (match r.1 with
     | Done _ => Done 0%Z
     | SystemExit code => SystemExit code
     | Uncaught exn => Uncaught exn
     end, rmtree td r.2).
Proof.
  simpl. unfold normal_path, mkdtemp, finally, mbind, M_bind. simpl.
  destruct (normalize_all _ _ _ _ _ _) as [[parts|?|?] w1]; simpl; [|done..].
  by destruct (concat_via_list _ _ _) as [[?|?|?] w2].
Qed.

(** If the transcoder fails on a clip of the play order after succeeding on
    those before it, the run ends there with [SystemExit] carrying the
    transcoder's return code; the status of the process is that code's low
    eight bits, which is the code itself between 1 and 255 (a transcoder
    killed by signal 9 returns -9, and the process ends with 247).  The
    clips before were transcoded in order, none was skipped, no later clip
    is touched and the joiner is never started.  The temporary directory is
    removed on the way out, so that the files and directories are exactly
    those from before the run; no output has been produced. *)
Theorem transcode_failure_aborts a (w : World) pl w1 before src after code :
  a_fast a = false →
  prepare a w = (Done (inr pl), w1) →
  pl_ordered pl = before ++ src :: after →
  (∀ i s, before !! i = Some s →
          ffmpeg_run (normalize_cmd a (pl_size pl) s
                        (part_path mkdtemp_path i)) = Some 0%Z) →
  ffmpeg_run (normalize_cmd a (pl_size pl) src
                (part_path mkdtemp_path (length before))) = Some code →
  code ≠ 0%Z →
  fresh mkdtemp_path w →
  let td := mkdtemp_path in
  let r := main a w in
  r.1 = SystemExit code
  ∧ exit_status r.1 = (code mod 256)%Z
  ∧ ((0 < code < 256)%Z → exit_status r.1 = code)
  ∧ w_trace r.2
    = w_trace w1 ++ [Mkdtemp td]
      ++ transcodes a (pl_size pl) td 0 (before ++ [src]) ++ [Rmtree td]
  ∧ w_files r.2 = w_files w
  ∧ w_dirs r.2 = w_dirs w.
Proof.
  intros Hfast Hp Hord Hok Hfail Hcode Hfresh. simpl.
  rewrite (main_inr _ _ _ _ Hp), Hfast, normal_path_eq.
  destruct (prepare_inr _ _ _ _ Hp) as (_ & _ & _ & _ & Hf & Hd & _).
  simpl. unfold mbind, M_bind. rewrite Hord.
  set (w0 := log (Mkdtemp mkdtemp_path)
               (set_dirs ({[mkdtemp_path]} ∪ w_dirs w1) w1)).
  destruct (normalize_all_fails a (pl_size pl) mkdtemp_path before src after
              code 0 w0 Hok Hfail Hcode) as [Hr Ht].
  destruct (normalize_all_frame a (pl_size pl) mkdtemp_path
              (before ++ src :: after) 0 w0) as (Hd' & Hin & Hout).
  destruct (normalize_all _ _ _ _ _ w0) as [r w']. simpl in *. subst r.
  split_and!; [done|done| | | |].
  - intros Hrange. unfold exit_status. by apply Z.mod_small; lia.
  - simpl. rewrite Ht. by rewrite <- !app_assoc.
  - apply rmtree_files; [done|by rewrite <- Hf|by rewrite <- Hf].
  - simpl. rewrite Hd', Hd. by apply rmtree_dirs.
Qed.

(** When every transcode succeeds, a normal run transcodes the clips of the
    play order one by one, in order, the clip at index [i] into
    [part_000i.mp4] of the temporary directory, then joins exactly these
    parts in this order, tries to delete the manifest, and removes the
    directory.  It ends as the joiner does: [main] returns 0 when the joiner
    exits with 0, and the run ends with the joiner's status otherwise.
    Afterwards the directories are as before and no file is new except
    possibly the output, and the manifest if its deletion failed.  If the
    manifest write raises, the joiner is not started: the directory is
    removed and the run ends with that exception. *)
Theorem normal_mode_transcodes_then_joins a (w : World) pl w1 :
  a_fast a = false →
  prepare a w = (Done (inr pl), w1) →
  (∀ i s, pl_ordered pl !! i = Some s →
          ffmpeg_run (normalize_cmd a (pl_size pl) s
                        (part_path mkdtemp_path i)) = Some 0%Z) →
  fresh mkdtemp_path w →
  let td := mkdtemp_path in
  let list_path := mkstemp_path in
  let parts := part_paths td 0 (length (pl_ordered pl)) in
  let cmd := concat_cmd list_path (pl_output pl) in
  let transcoded := w_trace w1 ++ [Mkdtemp td]
                    ++ transcodes a (pl_size pl) td 0 (pl_ordered pl) in
  let r := main a w in
  w_dirs r.2 = w_dirs w
  ∧ match write_error list_path (manifest parts) with
    | None =>
        w_trace r.2
        = transcoded
          ++ [WriteFile list_path (manifest parts); Spawn cmd;
              Unlink list_path; Rmtree td]
        ∧ r.1 = match ffmpeg_run cmd with
                | Some 0%Z => Done 0%Z
                | Some code => SystemExit code
                | None => Uncaught "OSError"
                end
        ∧ (∀ p, p ∈ w_files r.2 →
                p ∈ w_files w ∨ p = pl_output pl
                ∨ (p = list_path ∧ unlink_ok list_path = false))
    | Some exn =>
        w_trace r.2 = transcoded ++ [WriteFailed list_path; Rmtree td]
        ∧ r.1 = Uncaught exn
        ∧ (∀ p, p ∈ w_files r.2 → p ∈ w_files w ∨ p = list_path)
    end.
Proof.
  intros Hfast Hp Hok Hfresh. simpl.
  rewrite (main_inr _ _ _ _ Hp), Hfast, normal_path_eq.
  destruct (prepare_inr _ _ _ _ Hp) as (_ & _ & _ & _ & Hf & Hd & _).
  simpl. unfold mbind, M_bind.
  set (w0 := log (Mkdtemp mkdtemp_path)
               (set_dirs ({[mkdtemp_path]} ∪ w_dirs w1) w1)).
  destruct (normalize_all_ok a (pl_size pl) mkdtemp_path (pl_ordered pl)
              0 w0 Hok) as [Hr Ht].
  destruct (normalize_all_frame a (pl_size pl) mkdtemp_path
              (pl_ordered pl) 0 w0) as (Hd' & Hin & Hout).
  destruct (normalize_all _ _ _ _ _ w0) as [r w']. simpl in *. subst r.
  rewrite concat_via_list_eq.
  destruct (write_error _ _) as [exn|]; simpl;
    (split; [rewrite Hd', Hd; by apply rmtree_dirs|]).
  - split_and!; [rewrite Ht; by rewrite <- !app_assoc|done|].
    intros p. rewrite elem_of_filter, elem_of_union, elem_of_singleton.
    rewrite <- Hf. intros [Hn [->|Hp']]; [by right|].
    destruct (Hout p Hp'); [by left|done].
  - split_and!; [rewrite Ht; by rewrite <- !app_assoc| |].
    { unfold run_outcome. by destruct (ffmpeg_run _) as [[| |]|]. }
    intros p. rewrite elem_of_filter. rewrite <- Hf. intros [Hn Hp'].
    destruct (ffmpeg_writes _), (unlink_ok _);
      rewrite ?elem_of_difference, ?elem_of_union, !elem_of_singleton in Hp'.
    + destruct Hp' as [[->|[->|Hp']] Hne]; [auto|done|].
      destruct (Hout p Hp'); [by left|done].
    + destruct Hp' as [->|[->|Hp']]; [auto|auto|].
      destruct (Hout p Hp'); [by left|done].
    + destruct Hp' as [[->|Hp'] Hne]; [done|].
      destruct (Hout p Hp'); [by left|done].
    + destruct Hp' as [->|Hp']; [auto|].
      destruct (Hout p Hp'); [by left|done].
Qed.

(** *** What a run leaves behind *)






End Normal.

Lemma transcode_failure_aborts_witness :
  let E := Demo.env (Some "640x480") (Demo.fails_on "/clips/a.mp4") in
  let r := @main Demo.lcg E (Demo.args "b.mp4" false) Demo.world in
  r.1 = SystemExit 1%Z ∧ w_files r.2 = w_files Demo.world.
Proof.
  intros E r.
  pose (pl := mkPlan
          [["clips"; "a.mp4"]; ["clips"; "b.mp4"]; ["clips"; "c.MP4"]]
          ["clips"; "b.mp4"]
          [["clips"; "b.mp4"]; ["clips"; "a.mp4"]; ["clips"; "c.MP4"]]
          (640, 480)%Z ["out"; "Sora_Reel.mp4"]).
  assert (Hp : (@prepare Demo.lcg E (Demo.args "b.mp4" false) Demo.world).1
               = Done (inr pl)) by (vm_compute; reflexivity).
  assert (Hfresh : @fresh Demo.lcg (@mkdtemp_path E) Demo.world).
  { apply (bool_decide_unpack (set_Forall _ _)). vm_compute. exact I. }
  destruct (@transcode_failure_aborts Demo.lcg E (Demo.args "b.mp4" false)
              Demo.world pl _ [["clips"; "b.mp4"]] ["clips"; "a.mp4"]
              [["clips"; "c.MP4"]] 1%Z eq_refl (outcome_pair _ _ _ Hp)
              eq_refl)
    as (Hr & _ & _ & _ & Hf & _).
  - intros [|i] s [= <-]. vm_compute. reflexivity.
  - vm_compute. reflexivity.
  - discriminate.
  - exact Hfresh.
  - split; [exact Hr | exact Hf].
Defined.

Lemma normal_mode_transcodes_then_joins_witness :
  let E := Demo.env (Some "640x480") Demo.all_ok in
  let r := @main Demo.lcg E (Demo.args "b.mp4" false) Demo.world in
  r.1 = Done 0%Z ∧ w_dirs r.2 = w_dirs Demo.world.
Proof.
  intros E r.
  pose (pl := mkPlan
          [["clips"; "a.mp4"]; ["clips"; "b.mp4"]; ["clips"; "c.MP4"]]
          ["clips"; "b.mp4"]
          [["clips"; "b.mp4"]; ["clips"; "a.mp4"]; ["clips"; "c.MP4"]]
          (640, 480)%Z ["out"; "Sora_Reel.mp4"]).
  assert (Hp : (@prepare Demo.lcg E (Demo.args "b.mp4" false) Demo.world).1
               = Done (inr pl)) by (vm_compute; reflexivity).
  assert (Hfresh : @fresh Demo.lcg (@mkdtemp_path E) Demo.world).
  { apply (bool_decide_unpack (set_Forall _ _)). vm_compute. exact I. }
  destruct (@normal_mode_transcodes_then_joins Demo.lcg E
              (Demo.args "b.mp4" false) Demo.world pl _ eq_refl
              (outcome_pair _ _ _ Hp))
    as (Hd & _ & Hr & _).
  - intros i s _. reflexivity.
  - exact Hfresh.
  - split; [exact Hr | exact Hd].
Defined.


(** The same run when the deletion of the manifest fails: the failure is
    swallowed, the run returns 0, and the manifest is left behind. *)
Lemma manifest_left_when_unlink_fails :
  let E := Demo.faulty None false Demo.all_ok in
  let r := @main Demo.lcg E (Demo.args "b.mp4" false) Demo.world in
  r.1 = Done 0%Z
  ∧ bool_decide (["tmp"; "tmpk3x9.txt"] ∈ w_files r.2) = true
  ∧ bool_decide (Unlink ["tmp"; "tmpk3x9.txt"] ∈ w_trace r.2) = true.
Proof. vm_compute. by split_and!. Qed.

(** ** Early returns and the play order (lines 176-201) *)

Section Order.
Context {G : PRNG} {E : Env}.

Lemma NoDup_enumerate_clips (w : World) folder :
  NoDup (enumerate_clips (is_file w) (iterdir w folder)).
Proof.
  rewrite enumerate_clips_Permutation.
  apply NoDup_filter, NoDup_iterdir.
Qed.

(** The checks of [main] come in a fixed order, and a run that fails one of
    them has done nothing but the version checks before it.  A missing
    folder gives 2 before any tool is tried; a missing [ffmpeg] ends the
    run with status 1 before [ffprobe] is tried, a missing [ffprobe] right
    after; a folder without clips gives 3 whatever the start is; and 4 is
    returned when there are clips, nothing exists at the resolved start
    path and no clip bears the requested name. *)
Theorem main_early_exits a (w : World) :
  let folder := resolve_arg (a_folder a) in
  let clips := enumerate_clips (is_file w) (iterdir w folder) in
  let w1 := log (Spawn ["ffmpeg"; "-version"]) w in
  let w2 := log (Spawn ["ffprobe"; "-version"]) w1 in
  (is_dir w folder = false → main a w = (Done 2%Z, w))
  ∧ (is_dir w folder = true → tool_found "ffmpeg" = false →
     main a w = (SystemExit 1%Z, w1))
  ∧ (is_dir w folder = true → tool_found "ffmpeg" = true →
     tool_found "ffprobe" = false →
     main a w = (SystemExit 1%Z, w2))
  ∧ (is_dir w folder = true → tool_found "ffmpeg" = true →
     tool_found "ffprobe" = true → clips = [] →
     main a w = (Done 3%Z, w2))
  ∧ (is_dir w folder = true → tool_found "ffmpeg" = true →
     tool_found "ffprobe" = true → clips ≠ [] →
     exists_ w (resolve_under folder (a_start a)) = false →
     (∀ p, p ∈ clips → name p ≠ a_start a) →
     main a w = (Done 4%Z, w2)).
Proof.
  simpl. unfold main, prepare, check_ffmpeg, check_tool, plan_run.
  unfold mbind, M_bind. split_and!.
  - by intros ->.
  - by intros -> ->.
  - by intros -> -> ->.
  - intros -> -> ->. simpl. rewrite !enumerate_log. by intros ->.
  - intros -> -> ->. simpl. rewrite !enumerate_log, !resolve_start_log.
    intros Hne Hex Hno.
    destruct (enumerate_clips _ _) as [|c cs] eqn:Hc; [done|].
    assert (Hr : resolve_start w (resolve_arg (a_folder a)) (c :: cs)
                   (a_start a) = None) by by apply resolve_start_None.
    by rewrite Hr.
Qed.

(** For a run that gets past start resolution.  The play order begins with
    the start and has no duplicates; its entries are the start and the
    enumerated clips.  If the start is one of the clips, the play order is a
    rearrangement of the clips.  The start is whatever exists at the
    resolved path, clip or not: if it is not one of the clips, the play
    order is a rearrangement of the clips with the start added, one entry
    longer.  Only when nothing exists at the resolved path is the start
    looked up among the clips by name. *)
Theorem play_order_shape a (w : World) pl w1 :
  prepare a w = (Done (inr pl), w1) →
  let start_path := resolve_under (resolve_arg (a_folder a)) (a_start a) in
  head (pl_ordered pl) = Some (pl_start pl)
  ∧ NoDup (pl_ordered pl)
  ∧ (∀ p, p ∈ pl_ordered pl ↔ p = pl_start pl ∨ p ∈ pl_clips pl)
  ∧ (pl_start pl ∈ pl_clips pl →
     pl_ordered pl ≡ₚ pl_clips pl
     ∧ length (pl_ordered pl) = length (pl_clips pl))
  ∧ (pl_start pl ∉ pl_clips pl →
     pl_ordered pl ≡ₚ pl_start pl :: pl_clips pl
     ∧ length (pl_ordered pl) = S (length (pl_clips pl)))
  ∧ (exists_ w start_path = true → pl_start pl = start_path)
  ∧ (exists_ w start_path = false →
     pl_start pl ∈ pl_clips pl ∧ name (pl_start pl) = a_start a).
Proof.
  intros Hp. simpl.
  destruct (prepare_inr _ _ _ _ Hp)
    as (Hc & Hr & (others & Ho & Hperm) & _).
  assert (Hnd : NoDup (pl_clips pl))
    by (rewrite Hc; apply NoDup_enumerate_clips).
  assert (Hndo : NoDup (pl_start pl :: others)).
  { constructor.
    - rewrite Hperm, list_elem_of_filter. tauto.
    - rewrite Hperm. by apply NoDup_filter. }
  assert (Hel : ∀ p, p ∈ pl_start pl :: others
                     ↔ p = pl_start pl ∨ p ∈ pl_clips pl).
  { intros p. rewrite elem_of_cons, Hperm, list_elem_of_filter.
    destruct (decide (p = pl_start pl)); tauto. }
  rewrite Ho. split_and!; [done|done|done| | | |].
  - intros Hin.
    assert (Hall : pl_start pl :: others ≡ₚ pl_clips pl).
    { apply NoDup_Permutation; [done|done|].
      intros p. rewrite Hel. split; [by intros [->|?]|auto]. }
    split; [done|by rewrite Hall].
  - intros Hnin.
    assert (Hall : pl_start pl :: others ≡ₚ pl_start pl :: pl_clips pl).
    { apply NoDup_Permutation; [done|by constructor|].
      intros p. by rewrite Hel, elem_of_cons. }
    split; [done|by rewrite Hall].
  - intros Hex. rewrite (resolve_start_exists _ _ _ _ Hex) in Hr.
    by injection Hr.
  - intros Hex. unfold resolve_start in Hr. rewrite Hex in Hr. simpl in Hr.
    apply head_Some_elem_of in Hr.
    apply list_elem_of_filter in Hr. tauto.
Qed.

End Order.

Lemma play_order_shape_witness :
  let pl := mkPlan
              [["clips"; "a.mp4"]; ["clips"; "b.mp4"]; ["clips"; "c.MP4"]]
              ["clips"; "notes.txt"]
              [["clips"; "notes.txt"]; ["clips"; "a.mp4"];
               ["clips"; "c.MP4"]; ["clips"; "b.mp4"]]
              (640, 480)%Z ["out"; "Sora_Reel.mp4"] in
  NoDup (pl_ordered pl)
  ∧ length (pl_ordered pl) = S (length (pl_clips pl)).
Proof.
  intros pl.
  pose (E := Demo.env (Some "640x480") Demo.all_ok).
  assert (Hp : (@prepare Demo.lcg E (Demo.args "notes.txt" false)
                  Demo.world).1 = Done (inr pl))
    by (vm_compute; reflexivity).
  destruct (@play_order_shape Demo.lcg E (Demo.args "notes.txt" false)
              Demo.world pl _ (outcome_pair _ _ _ Hp))
    as (_ & Hnd & _ & _ & Hout & _).
  split; [exact Hnd|].
  apply Hout. apply (bool_decide_unpack _). vm_compute. exact I.
Defined.

(** ** The size probe (lines 56-82) *)

Lemma split_nonempty c s : Str.split c s ≠ [].
Proof.
  destruct s as [|x s]; simpl; [done|].
  destruct (decide (x = c)); [done|]. by destruct (Str.split c s).
Qed.

Lemma split_single c s b :
  Str.split c s = [b] ↔ s = b ∧ Str.contains c s = false.
Proof.
  revert b. induction s as [|x s IH]; intros b; simpl.
  - split; [by intros [= <-]|by intros [<- _]].
  - destruct (decide (x = c)) as [->|Hx].
    + split; [|by intros [_ ?]].
      intros [= _ Hs]. by destruct (split_nonempty c s).
    + destruct (Str.split c s) as [|w ws] eqn:Hs.
      { by destruct (split_nonempty c s). }
      split.
      * intros [= <- ->]. by destruct (proj1 (IH w) eq_refl) as [-> ->].
      * intros [<- Hc].
        by pose proof (proj2 (IH s) (conj eq_refl Hc)) as [= -> ->].
Qed.

Lemma split_pair c s a b :
  Str.split c s = [a; b]
  ↔ s = a +:+ String c b
    ∧ Str.contains c a = false ∧ Str.contains c b = false.
Proof.
  revert a. induction s as [|x s IH]; intros a; simpl.
  - split; [done|]. intros [Hs _]. by destruct a.
  - destruct (decide (x = c)) as [->|Hx].
    + split.
      * intros [= <- Hs]. apply split_single in Hs as [-> Hc]. done.
      * intros (Hs & Ha & Hb). destruct a as [|y a].
        -- injection Hs as ->.
           by rewrite (proj2 (split_single c b b) (conj eq_refl Hb)).
        -- injection Hs as <- _. simpl in Ha.
           by rewrite decide_True in Ha.
    + destruct (Str.split c s) as [|w ws] eqn:Hs.
      { by destruct (split_nonempty c s). }
      split.
      * intros [= <- ->]. destruct (proj1 (IH w) eq_refl) as (-> & Ha & Hb).
        split_and!; [done| |done]. simpl. by rewrite decide_False.
      * intros (Hsa & Ha & Hb). destruct a as [|y a].
        -- by injection Hsa as -> _.
        -- injection Hsa as <- ->. simpl in Ha.
           rewrite decide_False in Ha by done.
           by pose proof (proj2 (IH a) (conj eq_refl (conj Ha Hb)))
             as [= -> ->].
Qed.

Lemma contains_app_cons c a b : Str.contains c (a +:+ String c b) = true.
Proof.
  induction a as [|y a IH]; simpl.
  - by rewrite decide_True.
  - by destruct (decide (y = c)).
Qed.

Section Probe.
Context {G : PRNG} {E : Env}.

(** The probe's output gives a size exactly when, stripped of surrounding
    white space, it is two integers around a single [x]. *)
Lemma parse_size_Some out wd ht :
  parse_size out = Some (wd, ht)
  ↔ ∃ ws hs,
      strip out = ws +:+ String "x" hs
      ∧ Str.contains "x" ws = false ∧ Str.contains "x" hs = false
      ∧ py_int ws = Some wd ∧ py_int hs = Some ht.
Proof.
  unfold parse_size. split.
  - destruct (Str.contains "x" (strip out)); [|done].
    destruct (Str.split "x" (strip out)) as [|a [|b [|? ?]]] eqn:Hs;
      try done.
    apply split_pair in Hs as (Hs & Ha & Hb).
    destruct (py_int a) as [wd'|] eqn:Hwa; [|done].
    destruct (py_int b) as [ht'|] eqn:Hhb; [|done].
    simpl. intros [= <- <-]. by exists a, b.
  - intros (ws & hs & Hs & Ha & Hb & Hw & Hh).
    rewrite Hs, contains_app_cons.
    rewrite (proj2 (split_pair "x" _ ws hs)) by done.
    rewrite Hw. simpl. by rewrite Hh.
Qed.

(** The probe always ends normally, after one run of [ffprobe] on the path.
    Its answer is the pair of integers read from an output of the form
    [W x H] (white space around it stripped, a single [x], both sides
    accepted by [int]); in every other case (the tool failed, no [x], more
    than one [x], a side that is no integer) it is 1920x1080. *)
Theorem probe_size_reads_dimensions p (w : World) :
  ∃ size,
    probe_size p w = (Done size, log (Spawn (ffprobe_cmd p)) w)
    ∧ (∀ out ws hs wd ht,
          ffprobe_run (ffprobe_cmd p) = Some out →
          strip out = ws +:+ String "x" hs →
          Str.contains "x" ws = false → Str.contains "x" hs = false →
          py_int ws = Some wd → py_int hs = Some ht →
          size = (wd, ht))
    ∧ (size ≠ (1920, 1080)%Z →
       ∃ out ws hs,
         ffprobe_run (ffprobe_cmd p) = Some out
         ∧ strip out = ws +:+ String "x" hs
         ∧ Str.contains "x" ws = false ∧ Str.contains "x" hs = false
         ∧ py_int ws = Some size.1 ∧ py_int hs = Some size.2).
Proof.
  rewrite probe_size_eq. eexists. split; [reflexivity|]. split.
  - intros out ws hs wd ht -> Hs Ha Hb Hw Hh. simpl.
    assert (Hp : parse_size out = Some (wd, ht))
      by (apply parse_size_Some; eauto 10).
    by rewrite Hp.
  - destruct (ffprobe_run (ffprobe_cmd p)) as [out|]; simpl; [|done].
    destruct (parse_size out) as [[wd ht]|] eqn:Hp; simpl; [|done].
    intros _. apply parse_size_Some in Hp as (ws & hs & ?).
    exists out, ws, hs. tauto.
Qed.

End Probe.

(** Two streams reported on two lines: three pieces around the [x]s, so the
    default is taken. *)
Lemma probe_size_two_lines :
  let E := Demo.env (Some ("640x480" +:+ newline +:+ "640x480" +:+ newline))
             Demo.all_ok in
  (@probe_size Demo.lcg E ["clips"; "b.mp4"] Demo.world).1
  = Done (1920, 1080)%Z.
Proof. by vm_compute. Qed.

(** ** The names of the intermediate files (line 228) *)

Lemma pretty_N_go_head x s :
  (0 < x)%N → ∃ d t, pretty_N_go x s = String d t ∧ d ≠ "0"%char.
Proof.
  revert s. induction (N.lt_wf_0 x) as [x _ IH]; intros s Hx.
  rewrite pretty_N_go_step by done.
  destruct (decide (x `div` 10 = 0)%N) as [Hq|Hq].
  - rewrite Hq, pretty_N_go_0. eexists _, _. split; [done|].
    apply N.div_small_iff in Hq; [|done].
    rewrite N.mod_small by done.
    assert (x = 1 ∨ x = 2 ∨ x = 3 ∨ x = 4 ∨ x = 5 ∨ x = 6
            ∨ x = 7 ∨ x = 8 ∨ x = 9)%N as Hd by lia.
    destruct Hd as [->|[->|[->|[->|[->|[->|[->|[->| ->]]]]]]]]; done.
  - apply IH; [apply N.div_lt; lia | by apply N.neq_0_lt_0].
Qed.

(** The digits of a number: empty for 0, and never beginning with 0. *)
Lemma pretty_nat_head (n : nat) :
  (n = 0 ∧ pretty n = "0")
  ∨ (∃ d t, pretty n = String d t ∧ d ≠ "0"%char).
Proof.
  unfold pretty, pretty_nat, pretty, pretty_N.
  destruct (decide (N.of_nat n = 0%N)) as [Hn|Hn].
  - left. split; [lia|done].
  - right. apply pretty_N_go_head. lia.
Qed.

Lemma zeros_S k :
  Str.concat (replicate (S k) "0") = String "0" (Str.concat (replicate k "0")).
Proof. reflexivity. Qed.

Lemma zeros_length k : String.length (Str.concat (replicate k "0")) = k.
Proof. induction k as [|k IH]; [done|]. rewrite zeros_S. simpl. by rewrite IH. Qed.

(** Padding with zeros loses nothing when the padded texts do not begin
    with 0. *)
Lemma zeros_app_inj k1 k2 s1 s2 :
  (∀ t, s1 ≠ String "0" t) → (∀ t, s2 ≠ String "0" t) →
  Str.concat (replicate k1 "0") +:+ s1 = Str.concat (replicate k2 "0") +:+ s2 →
  k1 = k2 ∧ s1 = s2.
Proof.
  intros H1 H2. revert k2.
  induction k1 as [|k1 IH]; intros [|k2]; rewrite ?zeros_S, ?str_app_cons.
  - done.
  - simpl. rewrite str_app_nil_l. intros ->. by destruct (H1 _ eq_refl).
  - simpl. rewrite str_app_nil_l. intros <-. by destruct (H2 _ eq_refl).
  - intros [= Heq]. destruct (IH _ Heq) as [-> ->]. done.
Qed.

(** [f"{idx:04d}"] is at least four characters long and tells the indexes
    apart. *)
Lemma fmt_04d_inj i j : fmt_04d i = fmt_04d j → i = j.
Proof.
  unfold fmt_04d.
  destruct (pretty_nat_head i) as [[-> Hi]|(di & ti & Hi & Hdi)];
    destruct (pretty_nat_head j) as [[-> Hj]|(dj & tj & Hj & Hdj)];
    rewrite ?Hi, ?Hj; [done| | |].
  - change (Str.concat (replicate (4 - String.length "0") "0") +:+ "0")
      with (Str.concat (replicate 4 "0") +:+ EmptyString).
    intros Heq. apply zeros_app_inj in Heq as [_ Heq]; [done|done|].
    intros t [= -> _]. done.
  - change (Str.concat (replicate (4 - String.length "0") "0") +:+ "0")
      with (Str.concat (replicate 4 "0") +:+ EmptyString).
    intros Heq. apply zeros_app_inj in Heq as [_ Heq]; [done| |done].
    intros t [= -> _]. done.
  - intros Heq. apply zeros_app_inj in Heq as [_ Heq].
    + apply (inj pretty). by rewrite Hi, Hj.
    + intros t [= -> _]. done.
    + intros t [= -> _]. done.
Qed.

Lemma str_app_inv_l (s t1 t2 : string) : s +:+ t1 = s +:+ t2 → t1 = t2.
Proof.
  induction s as [|c s IH]; [done|]. rewrite !str_app_cons.
  intros [= Heq]. by apply IH.
Qed.

Lemma str_app_inv_r (s1 s2 t : string) : s1 +:+ t = s2 +:+ t → s1 = s2.
Proof.
  revert s2. induction s1 as [|c s1 IH]; intros [|d s2];
    rewrite ?str_app_cons, ?str_app_nil_l.
  - done.
  - intros Heq. apply (f_equal String.length) in Heq.
    simpl in Heq. rewrite str_length_app in Heq. lia.
  - intros Heq. apply (f_equal String.length) in Heq.
    simpl in Heq. rewrite str_length_app in Heq. lia.
  - intros [= -> Heq]. by rewrite (IH _ Heq).
Qed.

Lemma part_path_inj norm_dir i j :
  part_path norm_dir i = part_path norm_dir j → i = j.
Proof.
  unfold part_path, child. intros Heq.
  apply app_inv_head in Heq. injection Heq as Heq.
  apply str_app_inv_l, str_app_inv_r in Heq. by apply fmt_04d_inj.
Qed.

(** The intermediate files for [n] clips are [n] pairwise distinct entries
    of the temporary directory itself: positions that differ get names that
    differ (also beyond 9999, where the number takes more than four
    digits), so no transcode overwrites the result of another. *)
Theorem part_paths_distinct norm_dir idx n :
  NoDup (part_paths norm_dir idx n)
  ∧ length (part_paths norm_dir idx n) = n
  ∧ (∀ p, p ∈ part_paths norm_dir idx n → is_child_of norm_dir p = true)
  ∧ (∀ i j, part_path norm_dir i = part_path norm_dir j ↔ i = j).
Proof.
  unfold part_paths. split_and!.
  - apply NoDup_fmap_2; [|apply NoDup_seq].
    intros i j. apply part_path_inj.
  - by rewrite length_fmap, length_seq.
  - intros p [i [-> _]]%list_elem_of_fmap.
    unfold is_child_of, part_path, child. apply bool_decide_eq_true.
    rewrite length_app, take_app_length. simpl. split; [lia|done].
  - intros i j. split; [apply part_path_inj|by intros ->].
Qed.

(** ** The documented use: [--start] names a clip of the folder *)

Section NamedClip.
Context {G : PRNG} {E : Env}.

(** When the folder exists, both tools answer and the resolved [--start]
    path is one of the enumerated clips, the run gets past line 212: the
    start is that clip, and the play order is a rearrangement of the clips,
    without duplicates, that begins with it. *)
Theorem named_clip_leads a (w : World) :
  let folder := resolve_arg (a_folder a) in
  let clips := enumerate_clips (is_file w) (iterdir w folder) in
  let start_path := resolve_under folder (a_start a) in
  is_dir w folder = true →
  tool_found "ffmpeg" = true →
  tool_found "ffprobe" = true →
  start_path ∈ clips →
  ∃ pl w1,
    prepare a w = (Done (inr pl), w1)
    ∧ pl_clips pl = clips
    ∧ pl_start pl = start_path
    ∧ head (pl_ordered pl) = Some start_path
    ∧ NoDup (pl_ordered pl)
    ∧ pl_ordered pl ≡ₚ clips
    ∧ length (pl_ordered pl) = length clips.
Proof.
  simpl. intros Hdir Hff Hfp Hin.
  assert (Hex : exists_ w (resolve_under (resolve_arg (a_folder a))
                             (a_start a)) = true).
  { apply elem_of_enumerate_clips in Hin as (_ & Hf & _).
    unfold exists_. by rewrite Hf. }
  unfold prepare. rewrite Hdir. simpl.
  unfold check_ffmpeg, check_tool, mbind, M_bind. rewrite Hff, Hfp.
  unfold plan_run. rewrite !enumerate_log, !resolve_start_log.
  pose proof (NoDup_enumerate_clips w (resolve_arg (a_folder a))) as Hnd.
  destruct (enumerate_clips _ _) as [|c cs] eqn:Hc.
  { by apply elem_of_nil in Hin. }
  rewrite (resolve_start_exists _ _ _ _ Hex).
  set (w0 := log _ (log _ w)).
  set (sp := resolve_under _ _) in *.
  destruct (plan_order_Done (a_seed a) (c :: cs) sp w0)
    as (others & g' & Hd & Hp).
  destruct (plan_order_member _ _ _ _ _ _ Hnd Hin Hd)
    as (_ & Hlen & Hndo & Hperm & _).
  rewrite (bind_Done _ _ _ _ _ Hd).
  destruct (resolve_size_Done a sp (set_rng g' w0)) as [size Hsz].
  rewrite (bind_Done _ _ _ _ _ Hsz).
  eexists _, _. split; [reflexivity|]. simpl. by split_and!.
Qed.

End NamedClip.

Lemma named_clip_leads_witness :
  let E := Demo.env (Some "640x480") Demo.all_ok in
  ∃ pl w1,
    @prepare Demo.lcg E (Demo.args "b.mp4" false) Demo.world
    = (Done (inr pl), w1)
    ∧ pl_start pl = ["clips"; "b.mp4"]
    ∧ length (pl_ordered pl) = 3.
Proof.
  intros E.
  destruct (@named_clip_leads Demo.lcg E (Demo.args "b.mp4" false)
              Demo.world)
    as (pl & w1 & Hp & _ & Hs & _ & _ & _ & Hl).
  - reflexivity.
  - reflexivity.
  - reflexivity.
  - apply (bool_decide_unpack _). vm_compute. exact I.
  - exists pl, w1. split_and!; [exact Hp | exact Hs | exact Hl].
Defined.
